(** * starsmarket.io: the purchase settlement protocol of [server.js]

    A shallow embedding of the Express handlers of [src/server.js] (the
    file-backed server, lines 1-267; the second copy further down in the
    same file has the same handlers) and the properties of the settlement
    protocol that the specification states about them.  The third variant of
    the server keeps its data in a hosted table store through calls whose
    code is not part of the repository; it is not embedded here.

    Modelling conventions.
    - A JSON value is a [json]; JavaScript's [undefined] is [None] in
      [option json].
    - The [db.json] file is [db_file : option DB.t], [None] when the file
      does not exist yet: the file is the value that [JSON.parse] reads from
      it, for a store whose records carry all their fields.  [DB.users] and
      [DB.gifts] are JavaScript objects used as maps and become
      [gmap string _], which hold the stored entries only.  A lookup of a
      key that is not stored also finds what the object inherits from
      [Object.prototype]; such keys are [inheritable] below, the handlers
      are embedded for the other keys, and every theorem that depends on the
      lookup of a key chosen by a client says so.
    - Star prices and balances are JavaScript numbers holding integers; they
      are [Z] here, which is exact as long as they stay within the safe
      integer range; a [stars] or [priceStars] field that is not a number is
      outside the model.  The ruble amount computed by [calculateRubles] is
      a binary64 value and is modelled by the primitive [float].
    - [Date.now()] and the outcome of every [fetch] to the Telegram Bot API
      are inputs supplied by the environment [Env.t].
    - Identifiers sent by clients ([ownerId], [giftId], [buyerId], ...) are
      strings, as they are once used as property keys or inside a template
      literal.
    - Every handler reads and writes the file synchronously, before its
      first [await]; Node runs that part of a handler without interleaving
      another request, so requests act on the store one after the other and
      a sequence of requests is a [list] served in order. *)

From Stdlib Require Import ZArith Floats Lia Ascii String.
From stdpp Require Import gmap strings list pretty sorting.

#[local] Set Warnings "-inexact-float".
Local Open Scope Z_scope.

(** ** JavaScript values *)

(** A parsed JSON value.  The handlers never compute with a number they
    receive, they only test it ([JNum n] is falsy exactly when it is zero)
    or pass it on, so integers stand for all numbers. *)
#[local] Unset Elimination Schemes.
Inductive json : Type :=
  | JNull
  | JBool (b : bool)
  | JNum (n : Z)
  | JStr (s : string)
  | JArr (items : list json)
  | JObj (fields : list (string * json)).
#[local] Set Elimination Schemes.

(** [if (v)], [!v], [v && ...]: ToBoolean. *)
Definition truthy (v : option json) : bool :=
  match v with
  | None | Some JNull => false
  | Some (JBool b) => b
  | Some (JNum n) => negb (n =? 0)
  | Some (JStr s) => negb (String.eqb s "")
  | Some (JArr _) | Some (JObj _) => true
  end.

(** Own property of a parsed JSON object; [JSON.parse] keeps the last of
    several bindings of one key. *)
Fixpoint obj_get (k : string) (fields : list (string * json)) : option json :=
  match fields with
  | [] => None
  | (k', v) :: rest =>
      match obj_get k rest with
      | Some v' => Some v'
      | None => if String.eqb k k' then Some v else None
      end
  end.

(** [v.k] for a value [v] that is neither [undefined] nor [null], and for the
    property names the handlers read ([message], [successful_payment],
    [invoice_payload], [chat], [id]): numbers, booleans, strings and arrays
    have no such property. *)
Definition get (v : option json) (k : string) : option json :=
  match v with
  | Some (JObj fields) => obj_get k fields
  | _ => None
  end.

Definition nullish (v : option json) : bool :=
  match v with
  | None | Some JNull => true
  | _ => false
  end.

(** [s.split(sep)] for a one-character separator: the pieces between the
    occurrences of [sep], always at least one piece. *)
Fixpoint split (sep : Ascii.ascii) (s : string) : list string :=
  match s with
  | EmptyString => [EmptyString]
  | String c rest =>
      if Ascii.eqb c sep then EmptyString :: split sep rest
      else match split sep rest with
           | piece :: pieces => String c piece :: pieces
           | [] => [String c EmptyString]
           end
  end.

(** ** Numbers: the pricing function *)

(** The binary64 value of an integer (nearest, ties to even). *)
Definition Z2float (z : Z) : float :=
  SF2Prim (binary_normalize prec emax z 0 false).

(** The integer [n] nearest to [m * 2^e * 100], the larger one on a tie
    (step "let n be an integer for which n / 10^f - x is as close to zero as
    possible; if there are two such n, pick the larger n" of
    [Number.prototype.toFixed], at f = 2). *)
Definition nearest_hundredths (m : positive) (e : Z) : Z :=
  match e with
  | Zneg k => (2 * (Z.pos m * 100) + 2 ^ Z.pos k) / (2 * 2 ^ Z.pos k)
  | _ => Z.pos m * 2 ^ e * 100
  end.

(** Unary [+] on the decimal string that [toFixed(2)] prints for [n]
    hundredths with sign [neg]: the binary64 value nearest to [n / 100]. *)
Definition Number_of_hundredths (neg : bool) (n : Z) : float :=
  match n with
  | Z.pos p =>
      SF2Prim (SFdiv prec emax (S754_finite neg p 0) (S754_finite false 100 0))
  | _ => if neg then PrimFloat.neg_zero else PrimFloat.zero
  end.

(** [+x.toFixed(2)].  Values of magnitude 1e21 and more, infinities and NaN
    are printed by [ToString] and read back unchanged.  ([2 ^ e] is 0 in [Z]
    for a negative [e], where the magnitude is below [2^53].) *)
Definition toFixed2 (x : float) : float :=
  match Prim2SF x with
  | S754_finite s m e =>
      if 10 ^ 21 <=? Z.pos m * 2 ^ e then x
      else Number_of_hundredths s (nearest_hundredths m e)
  | S754_zero _ => PrimFloat.zero
  | _ => x
  end.

(** [Math.round(x)]: the integer nearest to [x], the larger one on a tie. *)
Definition Math_round (x : float) : float :=
  match Prim2SF x with
  | S754_finite s m e =>
      let r :=
        match e with
        | Zneg k =>
            let v := if s then Z.neg m else Z.pos m in
            (2 * v + 2 ^ Z.pos k) / (2 * 2 ^ Z.pos k)
        | _ => (if s then Z.neg m else Z.pos m) * 2 ^ e
        end in
      if r =? 0 then (if s then PrimFloat.neg_zero else PrimFloat.zero) else Z2float r
  | _ => x
  end.

(** The literal [1.04] denotes the binary64 value nearest to it. *)
Definition lit_1_04 : float := 0x1.0a3d70a3d70a4p+0%float.

(** server.js, lines 34-36:
    [function calculateRubles(stars) { return +(stars * 1.5 * 1.04).toFixed(2); }] *)
Definition calculateRubles (stars : Z) : float :=
  toFixed2 (Z2float stars * 1.5 * lit_1_04)%float.

(** [Math.round(rub * 100)] of the purchase handler (line 183). *)
Definition amountKopecks (stars : Z) : float :=
  Math_round (calculateRubles stars * 100)%float.

(** ** The store: contents of [db.json] *)

Module Gift.
Record t : Type := mk
  { id : string; ownerId : string; name : string; description : string;
    stars : Z; for_sale : bool; sold : bool }.
End Gift.

Module User.
Record t : Type := mk
  { id : string; username : string; avatar : string;
    stars : Z; gifts : list string }.
End User.

Module Purchase.
(** [date] is the instant that [new Date().toISOString()] prints;
    [buyerId] is [None] for [undefined], which [JSON.stringify] omits. *)
Record t : Type := mk
  { giftId : string; buyerId : option string; sellerId : string;
    amountRUB : float; date : N }.
End Purchase.

Module DB.
Record t : Type := mk
  { users : gmap string User.t;
    gifts : gmap string Gift.t;
    purchases : list Purchase.t }.

(** [{ users: {}, gifts: {}, purchases: [] }] *)
Definition empty : t := mk ∅ ∅ [].
End DB.

(** ** The environment and the effects of a handler *)

Inductive TgOutcome : Type :=
  | TgJson (result : json)     (* the provider answered; [res.json()] *)
  | TgFail (reason : string).  (* [fetch] or [res.json()] rejected *)

Module Env.
(** [fetch k] is the outcome of the call to the Bot API made when [k]
    calls have been made before it. *)
Record t : Type := mk
  { now : N;
    PAYMENT_PROVIDER_TOKEN : option string;
    fetch : nat → TgOutcome }.
End Env.

Module Invoice.
Record t : Type := mk
  { chat_id : string; title : string; description : string;
    payload : string; provider_token : option string; currency : string;
    price_label : string; price_amount : float; start_parameter : string }.
End Invoice.

(** The two texts of the webhook handler (lines 242 and 247): the
    congratulation sent to the buyer with the gift's name, and the notice
    sent to the seller with the gift's name and the stars credited. *)
Inductive MessageText : Type :=
  | GiftReceived (gift_name : string)
  | GiftSold (gift_name : string) (credited : Z).

Inductive TgBody : Type :=
  | SendInvoiceBody (invoice : Invoice.t)
  | SendMessageBody (chat_id : option json) (text : MessageText).

Record TgCall : Type := mkTgCall { method : string; body : TgBody }.

Inductive exn : Type :=
  | TypeError
  | FetchError (reason : string).

Inductive LogLine : Type :=
  | ConsoleError (what : string) (err : exn)
  | ConsoleWarn (what : string) (err : exn).

Record World : Type := mkWorld
  { db_file : option DB.t;
    tg_calls : list TgCall;
    console : list LogLine }.

Definition initial_world : World := mkWorld None [] [].

(** What is stored: a missing file reads as the empty store. *)
Definition contents (w : World) : DB.t := default DB.empty (db_file w).

Inductive result (A : Type) : Type :=
  | Ok (a : A)
  | Throw (e : exn).
Arguments Ok {A} a.
Arguments Throw {A} e.

(** A computation reads and changes the world and returns or throws. *)
Definition M (A : Type) : Type := World → result A * World.

#[global] Instance M_ret : MRet M := λ A a w, (Ok a, w).
#[global] Instance M_bind : MBind M := λ A B f m w,
  match m w with
  | (Ok a, w') => f a w'
  | (Throw e, w') => (Throw e, w')
  end.

Definition throw {A : Type} (e : exn) : M A := λ w, (Throw e, w).

Definition try_catch {A : Type} (m : M A) (handler : exn → M A) : M A := λ w,
  match m w with
  | (Ok a, w') => (Ok a, w')
  | (Throw e, w') => handler e w'
  end.

Definition log (line : LogLine) : M () := λ w,
  (Ok (), mkWorld (db_file w) (tg_calls w) (console w ++ [line])).

(** server.js, lines 23-27.  The file is held as the store that
    [JSON.parse] reads from it, and [saveDB] puts the store it is given in
    its place: the text that [JSON.stringify] writes in between is not
    modelled.  What the parsed object inherits is not part of the store
    (see [inheritable]). *)
Definition loadDB : M DB.t := λ w,
  match db_file w with
  | Some db => (Ok db, w)
  | None => (Ok DB.empty, mkWorld (Some DB.empty) (tg_calls w) (console w))
  end.

Definition saveDB (db : DB.t) : M () := λ w,
  (Ok (), mkWorld (Some db) (tg_calls w) (console w)).

(** server.js, lines 37-41. *)
Definition tgApi (env : Env.t) (method : string) (body : TgBody) : M json := λ w,
  let w' := mkWorld (db_file w) (tg_calls w ++ [mkTgCall method body]) (console w) in
  match Env.fetch env (length (tg_calls w)) with
  | TgJson result => (Ok result, w')
  | TgFail reason => (Throw (FetchError reason), w')
  end.

(** [v.k], which throws a [TypeError] when [v] is [undefined] or [null]. *)
Definition member (v : option json) (k : string) : M (option json) :=
  if nullish v then throw TypeError else mret (get v k).

(** [payload.split(':')]: only a string has the method. *)
Definition split_call (payload : option json) : M (list string) :=
  match payload with
  | Some (JStr s) => mret (split ":"%char s)
  | _ => throw TypeError
  end.

(** ** Responses *)

Inductive Response : Type :=
  | SendStatus (code : Z)                      (* [res.sendStatus(code)] *)
  | SendText (code : Z) (text : string)        (* [res.status(code).send(text)] *)
  | RedirectIndex (userId : string)            (* [res.redirect('/index.html?userId=...')] *)
  | JsonError (code : Z) (error : string)      (* [res.status(code).json({ error })] *)
  | JsonGift (gift : Gift.t)                   (* [res.json({ ok: true, gift })] *)
  | JsonResult (result : json).                (* [res.json({ ok: true, result })] *)

(** ** Field updates (assignments to a property of a stored object) *)

Definition gift_set_for_sale (b : bool) (g : Gift.t) : Gift.t :=
  Gift.mk (Gift.id g) (Gift.ownerId g) (Gift.name g) (Gift.description g)
    (Gift.stars g) b (Gift.sold g).

Definition gift_set_sold (b : bool) (g : Gift.t) : Gift.t :=
  Gift.mk (Gift.id g) (Gift.ownerId g) (Gift.name g) (Gift.description g)
    (Gift.stars g) (Gift.for_sale g) b.

Definition gift_set_stars (n : Z) (g : Gift.t) : Gift.t :=
  Gift.mk (Gift.id g) (Gift.ownerId g) (Gift.name g) (Gift.description g)
    n (Gift.for_sale g) (Gift.sold g).

Definition user_set_stars (n : Z) (u : User.t) : User.t :=
  User.mk (User.id u) (User.username u) (User.avatar u) n (User.gifts u).

Definition user_set_gifts (l : list string) (u : User.t) : User.t :=
  User.mk (User.id u) (User.username u) (User.avatar u) (User.stars u) l.

(** [n || 0] on a number. *)
Definition or_0 (n : Z) : Z := if n =? 0 then 0 else n.

(** [s || d] and [!s] on an optional string: the empty string is falsy. *)
Definition str_truthy (s : option string) : bool :=
  match s with
  | Some s => negb (String.eqb s "")
  | None => false
  end.

Definition str_or (s : option string) (d : string) : string :=
  match s with
  | Some s => if String.eqb s "" then d else s
  | None => d
  end.

(** ** The handlers *)

(** [GET /auth] (lines 63-72), once [verifyTelegramLogin(req.query)] has
    answered [verified]; [username] stands for
    [data.username || data.first_name || `tg${id}`] and [avatar] for
    [data.photo_url || ''].  [GET /api/user] and [GET /api/my_gifts] with a
    verified [x-telegram-initdata] header store the same record. *)
Definition auth (verified : bool) (id username avatar : string) : M Response :=
  if negb verified then mret (SendText 403 "Invalid Telegram login")
  else
    db ← loadDB;
    let user := default (User.mk id username avatar 0 []) (DB.users db !! id) in
    saveDB (DB.mk (<[id := user]> (DB.users db)) (DB.gifts db) (DB.purchases db));;
    mret (RedirectIndex id).

Module CreateGiftReq.
(** [req.body] of [POST /api/create_gift]; [None] is an absent field. *)
Record t : Type := mk
  { ownerId : option string; name : option string;
    description : option string; stars : option Z }.
End CreateGiftReq.

(** [`gift-${Date.now()}`] *)
Definition new_gift_id (env : Env.t) : string := "gift-" +:+ pretty (Env.now env).

(** [Number(stars) || 1] *)
Definition stars_or_1 (stars : option Z) : Z :=
  match stars with
  | Some n => if n =? 0 then 1 else n
  | None => 1
  end.

(** [POST /api/create_gift], lines 144-156, for a [stars] field that is
    absent or a number.  [db.users[ownerId] || {...}] is the stored record or
    a new one: for an [ownerId] that is [inheritable] the code finds a
    built-in object instead and stores no record, so what is said about the
    owner's record below is said for other owners only. *)
Definition create_gift (env : Env.t) (req : CreateGiftReq.t) : M Response :=
  if negb (str_truthy (CreateGiftReq.ownerId req)) || negb (str_truthy (CreateGiftReq.name req))
  then mret (JsonError 400 "ownerId and name required")
  else
    let ownerId := default "" (CreateGiftReq.ownerId req) in
    let name := default "" (CreateGiftReq.name req) in
    db ← loadDB;
    let id := new_gift_id env in
    let gift :=
      Gift.mk id ownerId name (str_or (CreateGiftReq.description req) "")
        (stars_or_1 (CreateGiftReq.stars req)) false false in
    let gifts := <[id := gift]> (DB.gifts db) in
    let owner := default (User.mk ownerId ownerId "" 0 []) (DB.users db !! ownerId) in
    let owner := user_set_gifts (User.gifts owner ++ [id]) owner in
    saveDB (DB.mk (<[ownerId := owner]> (DB.users db)) gifts (DB.purchases db));;
    mret (JsonGift gift).

(** [POST /api/sell_gift], lines 159-168; [priceStars] is [None] when the
    field is absent and a number otherwise (a field of another type is
    outside the model), and [id] is not [inheritable]. *)
Definition sell_gift (id : string) (priceStars : option Z) : M Response :=
  db ← loadDB;
  match DB.gifts db !! id with
  | None => mret (JsonError 404 "gift not found")
  | Some gift =>
      let gift := gift_set_for_sale true gift in
      let gift :=
        match priceStars with
        | Some n => if n =? 0 then gift else gift_set_stars n gift
        | None => gift
        end in
      saveDB (DB.mk (DB.users db) (<[id := gift]> (DB.gifts db)) (DB.purchases db));;
      mret (JsonGift gift)
  end.

(** The invoice built at lines 186-198;
    [gift.description || 'Покупка подарка']. *)
Definition default_description : string := "Покупка подарка".

Definition build_invoice (env : Env.t) (buyerId giftId : string) (gift : Gift.t) : Invoice.t :=
  let rub := calculateRubles (Gift.stars gift) in
  let amountKopecks := Math_round (rub * 100)%float in
  let payload := giftId +:+ ":" +:+ buyerId in
  Invoice.mk buyerId (Gift.name gift)
    (str_or (Some (Gift.description gift)) default_description)
    payload (Env.PAYMENT_PROVIDER_TOKEN env) "RUB"
    (Gift.name gift) amountKopecks ("buy-" +:+ giftId).

(** [POST /api/purchase], lines 173-206, for a [giftId] that is not
    [inheritable]: [db.gifts[giftId]] is the stored gift or [undefined]. *)
Definition purchase (env : Env.t) (buyerId giftId : string) : M Response :=
  try_catch
    (db ← loadDB;
     match DB.gifts db !! giftId with
     | None => mret (JsonError 400 "Gift not available")
     | Some gift =>
         if Gift.sold gift || negb (Gift.for_sale gift)
         then mret (JsonError 400 "Gift not available")
         else
           result ← tgApi env "sendInvoice" (SendInvoiceBody (build_invoice env buyerId giftId gift));
           mret (JsonResult result)
     end)
    (λ err, log (ConsoleError "purchase error" err);; mret (JsonError 500 "internal")).

(** The test of line 215:
    [update && update.message && update.message.successful_payment]. *)
Definition has_successful_payment (update : option json) : bool :=
  truthy update && truthy (get update "message")
  && truthy (get (get update "message") "successful_payment").

(** Lines 221-251 of the webhook handler: what is done with the [giftId] and
    [buyerId] read from the payload and the [chatId] of the message, for a
    [giftId] that is not [inheritable].  The seller is the stored record of
    the owner: for an owner whose id is [inheritable] and not stored the
    code credits a built-in object, which changes nothing in the file and
    has no [id] to notify, as with no seller here. *)
Definition settlement (env : Env.t) (giftId : string) (buyerId : option string)
    (chatId : option json) : M Response :=
  db ← loadDB;
  match DB.gifts db !! giftId with
  | None => mret (SendStatus 200)
  | Some gift =>
      if Gift.sold gift then mret (SendStatus 200)
      else
        (* mark as sold *)
        let gift := gift_set_for_sale false (gift_set_sold true gift) in
        let gifts := <[giftId := gift]> (DB.gifts db) in
        (* credit stars to seller *)
        let seller := DB.users db !! Gift.ownerId gift in
        let seller :=
          (λ s, user_set_stars (or_0 (User.stars s) + Gift.stars gift) s) <$> seller in
        let users :=
          match seller with
          | Some s => <[Gift.ownerId gift := s]> (DB.users db)
          | None => DB.users db
          end in
        (* record purchase *)
        let purchases :=
          DB.purchases db ++
          [Purchase.mk giftId buyerId (Gift.ownerId gift)
             (calculateRubles (Gift.stars gift)) (Env.now env)] in
        saveDB (DB.mk users gifts purchases);;
        (* send a message to buyer (deliver gift) *)
        tgApi env "sendMessage" (SendMessageBody chatId (GiftReceived (Gift.name gift)));;
        (* optionally notify seller *)
        match seller with
        | Some s =>
            if negb (String.eqb (User.id s) "") then
              try_catch
                (tgApi env "sendMessage"
                   (SendMessageBody (Some (JStr (User.id s)))
                      (GiftSold (Gift.name gift) (Gift.stars gift)));;
                 mret ())
                (λ e, log (ConsoleWarn "notify seller failed" e))
            else mret ()
        | None => mret ()
        end;;
        mret (SendStatus 200)
  end.

(** [POST /webhook], lines 210-260. *)
Definition webhook (env : Env.t) (update : option json) : M Response :=
  try_catch
    (if has_successful_payment update then
       message ← member update "message";
       sp ← member message "successful_payment";
       payload ← member sp "invoice_payload";
       chat ← member message "chat";
       chatId ← member chat "id";
       parts ← split_call payload;
       let giftId := default "undefined" (parts !! 0%nat) in
       let buyerId := parts !! 1%nat in
       settlement env giftId buyerId chatId
     else
       (* ignore other updates *)
       mret (SendStatus 200))
    (λ err, log (ConsoleError "webhook error" err);; mret (SendStatus 500)).

(** ** Sequences of requests *)

Inductive Request : Type :=
  | Auth (verified : bool) (id username avatar : string)
  | CreateGift (req : CreateGiftReq.t)
  | SellGift (id : string) (priceStars : option Z)
  | PurchaseReq (buyerId giftId : string)
  | Webhook (update : option json).

Definition handle (env : Env.t) (r : Request) : M Response :=
  match r with
  | Auth verified id username avatar => auth verified id username avatar
  | CreateGift req => create_gift env req
  | SellGift id priceStars => sell_gift id priceStars
  | PurchaseReq buyerId giftId => purchase env buyerId giftId
  | Webhook update => webhook env update
  end.

(** The world after serving the requests of [trace], oldest first, each in
    the environment it arrived in. *)
Fixpoint run (trace : list (Env.t * Request)) (w : World) : World :=
  match trace with
  | [] => w
  | (env, r) :: rest => run rest (handle env r w).2
  end.

Definition reachable (w : World) : Prop :=
  ∃ trace, w = run trace initial_world.

(** ** Reading a payment confirmation *)

(** [update.message.successful_payment.invoice_payload] and
    [update.message.chat] of an update that passed the test of line 215. *)
Definition invoice_payload (update : option json) : option json :=
  get (get (get update "message") "successful_payment") "invoice_payload".

Definition message_chat (update : option json) : option json :=
  get (get update "message") "chat".

(** What lines 216-219 read off an update: [giftId], [buyerId] and [chatId];
    [None] when one of these lines throws. *)
Definition read_confirmation (update : option json)
    : option (string * option string * option json) :=
  if has_successful_payment update && negb (nullish (message_chat update)) then
    match invoice_payload update with
    | Some (JStr s) =>
        let parts := split ":"%char s in
        Some (default "undefined" (parts !! 0%nat), parts !! 1%nat,
              get (message_chat update) "id")
    | _ => None
    end
  else None.

(** The handler of the [catch] of line 256. *)
Definition webhook_catch (err : exn) : M Response :=
  log (ConsoleError "webhook error" err);; mret (SendStatus 500).

(** ** What the webhook settles and saves *)

(** The gift a confirmation would settle: the one its payload names, when it
    is stored and not sold. *)
Definition settles (update : option json) (w : World)
    : option (string * option string * Gift.t) :=
  match read_confirmation update with
  | Some (giftId, buyerId, _) =>
      match DB.gifts (contents w) !! giftId with
      | Some gift => if Gift.sold gift then None else Some (giftId, buyerId, gift)
      | None => None
      end
  | None => None
  end.

(** The store that line 239 saves for an unsold gift. *)
Definition saved_by_settlement (env : Env.t) (giftId : string)
    (buyerId : option string) (gift : Gift.t) (db : DB.t) : DB.t :=
  DB.mk
    match DB.users db !! Gift.ownerId gift with
    | Some seller =>
        <[Gift.ownerId gift := user_set_stars (User.stars seller + Gift.stars gift) seller]>
          (DB.users db)
    | None => DB.users db
    end
    (<[giftId := gift_set_for_sale false (gift_set_sold true gift)]> (DB.gifts db))
    (DB.purchases db ++
     [Purchase.mk giftId buyerId (Gift.ownerId gift)
        (calculateRubles (Gift.stars gift)) (Env.now env)]).


(** The request passes the check of line 146. *)
Definition create_gift_accepted (req : CreateGiftReq.t) : bool :=
  str_truthy (CreateGiftReq.ownerId req) && str_truthy (CreateGiftReq.name req).

(** ** Properties of a store and of a sequence of requests *)

(** The invariant of the data model: a sold gift is not for sale. *)
Definition sold_not_for_sale (db : DB.t) : Prop :=
  ∀ id gift, DB.gifts db !! id = Some gift →
    Gift.sold gift = true → Gift.for_sale gift = false.

(** Every gift's owner has a user record. *)
Definition owners_registered (db : DB.t) : Prop :=
  ∀ id gift, DB.gifts db !! id = Some gift →
    is_Some (DB.users db !! Gift.ownerId gift).

(** The purchase records of one gift. *)
Definition purchases_of (giftId : string) (db : DB.t) : list Purchase.t :=
  filter (λ p, Purchase.giftId p = giftId) (DB.purchases db).


(** Every [create_gift] request of the trace is served at an instant whose
    identifier [gift-<Date.now()>] is not stored yet. *)
Fixpoint ids_fresh (trace : list (Env.t * Request)) (w : World) : Prop :=
  match trace with
  | [] => True
  | (env, r) :: rest =>
      match r with
      | CreateGift _ => DB.gifts (contents w) !! new_gift_id env = None
      | _ => True
      end
      ∧ ids_fresh rest (handle env r w).2
  end.

(** The gift cannot be bought: it is not stored, or not for sale, or sold. *)
Definition unavailable (db : DB.t) (giftId : string) : Prop :=
  DB.gifts db !! giftId = None
  ∨ ∃ gift, DB.gifts db !! giftId = Some gift
            ∧ (Gift.for_sale gift = false ∨ Gift.sold gift = true).

(** The sale state of [db'] is that of [db]: the same ledger, the same
    balance for every user of [db], and no gift sold that was not sold. *)
Definition same_sale_state (db db' : DB.t) : Prop :=
  DB.purchases db' = DB.purchases db
  ∧ (∀ id user, DB.users db !! id = Some user →
       User.stars <$> DB.users db' !! id = Some (User.stars user))
  ∧ (∀ id gift', DB.gifts db' !! id = Some gift' → Gift.sold gift' = true →
       ∃ gift, DB.gifts db !! id = Some gift ∧ Gift.sold gift = true).

Definition is_webhook (r : Request) : bool :=
  match r with
  | Webhook _ => true
  | _ => false
  end.

(** ** The price, as the specification words it *)

(** The price as the specification words it: non-positive input is rejected,
    and a positive number of stars costs [stars * 1.5 * 1.04] rounded to two
    decimal places, which is [156 * stars] hundredths; as a JavaScript number
    that is the binary64 value nearest to it. *)
Definition price (stars : Z) : option float :=
  if stars <=? 0 then None else Some (Number_of_hundredths false (156 * stars)).

(** [calculateRubles] agrees with exact arithmetic at [stars]: the amount
    is the binary64 value nearest to [156 * stars] hundredths. *)
Definition rubles_exact (stars : Z) : bool :=
  PrimFloat.Leibniz.eqb (calculateRubles stars) (Number_of_hundredths false (156 * stars)).

(** [calculateRubles] and [amountKopecks] agree with exact arithmetic at
    [stars]: the amount is the binary64 value nearest to [156 * stars]
    hundredths, and the minor units are [156 * stars]. *)
Definition price_exact (stars : Z) : bool :=
  let rub := calculateRubles stars in
  PrimFloat.Leibniz.eqb rub (Number_of_hundredths false (156 * stars))
  && PrimFloat.Leibniz.eqb (Math_round (rub * 100)%float) (Z2float (156 * stars)).

(** [f] holds at [z], [z+1], ..., [z+n-1]. *)
Fixpoint holds_from (n : nat) (z : Z) (f : Z → bool) : bool :=
  match n with
  | O => true
  | S n => f z && holds_from n (z + 1) f
  end.

(** ** Rounding to binary64 *)

(** The exact value [a / b], in units of the mantissa, lies at [l] between
    [m] and [m + 1]. *)
Definition located (m : Z) (l : location) (a b : Z) : Prop :=
  match l with
  | loc_Exact => a = m * b
  | loc_Inexact Lt => m * b < a ∧ 2 * a < (2 * m + 1) * b
  | loc_Inexact Eq => 2 * a = (2 * m + 1) * b
  | loc_Inexact Gt => (2 * m + 1) * b < 2 * a ∧ a < (m + 1) * b
  end.

(** [x] is the positive binary64 value [m * 2 ^ e], at least 1 and at most
    [2 ^ 53], with a 53-bit mantissa. *)
Definition normal (x : float) (m : positive) (e : Z) : Prop :=
  Prim2SF x = S754_finite false m e ∧ 2 ^ 52 ≤ Z.pos m < 2 ^ 53 ∧ -52 ≤ e ≤ 0.

(** [2 ^ 53] times the value [m * 2 ^ e]. *)
Definition scaled (m : positive) (e : Z) : Z := Z.pos m * 2 ^ (e + 53).

(** ** Environments and scenarios *)

(** An environment in which the Bot API answers every call. *)
Definition answering_env (now : N) : Env.t :=
  Env.mk now (Some "provider-token") (λ _, TgJson (JObj [("ok", JBool true)])).

(** An environment in which no call to the Bot API gets through. *)
Definition offline_env (now : N) : Env.t :=
  Env.mk now (Some "provider-token") (λ _, TgFail "network").

(** An environment in which only the call made after [k] others fails. *)
Definition failing_at (k : nat) (now : N) : Env.t :=
  Env.mk now (Some "provider-token")
    (λ i, if decide (i = k) then TgFail "network" else TgJson (JObj [("ok", JBool true)])).

(** A listed gift of 10 stars and the confirmation of its payment, as in
    the scenario of the specification. *)
Definition confirmation (payload : string) (chat : Z) : option json :=
  Some (JObj
    [("update_id", JNum 1);
     ("message",
      JObj [("chat", JObj [("id", JNum chat)]);
            ("successful_payment",
             JObj [("currency", JStr "RUB"); ("invoice_payload", JStr payload)])])]).

Definition listed_gift_trace : list (Env.t * Request) :=
  [(answering_env 5,
    CreateGift (CreateGiftReq.mk (Some "u1") (Some "rose") None (Some 10)));
   (answering_env 6, SellGift "gift-5" None);
   (answering_env 7, PurchaseReq "u2" "gift-5")].

Definition listed_gift_world : World := run listed_gift_trace initial_world.

(** The store after the confirmation of the scenario was settled. *)
Definition sold_gift_world : World :=
  (webhook (answering_env 8) (confirmation "gift-5:u2" 2) listed_gift_world).2.



(** ** Property names that every object inherits *)

(** The stored users and gifts are plain objects, and a lookup such as
    [db.gifts[k]] also finds what [Object.prototype] holds under [k].  These
    are the names that Node defines there: looking one of them up in an
    object that has no entry of that name gives a built-in function (or
    [Object.prototype] itself, for [__proto__]) instead of [undefined]. *)
Definition Object_prototype_names : list string :=
  ["constructor"; "__defineGetter__"; "__defineSetter__"; "hasOwnProperty";
   "__lookupGetter__"; "__lookupSetter__"; "isPrototypeOf";
   "propertyIsEnumerable"; "toString"; "valueOf"; "__proto__";
   "toLocaleString"].

(** The properties that the handlers assign on the value that a lookup
    returned ([gift.for_sale], [gift.stars], [gift.sold], [seller.stars],
    [user.gifts]).  When the lookup returned [Object.prototype], every
    object inherits them from then on. *)
Definition assigned_property_names : list string :=
  ["for_sale"; "stars"; "sold"; "gifts"].

(** [k] may be found on [Object.prototype] by a lookup in a stored object.
    The maps of this file hold the entries of the stored objects only: the
    handlers below are those of [server.js] for identifiers that are not
    inheritable.  What the server does with an inheritable identifier that
    is not stored depends on properties of built-in objects, which are state
    of the process and not of the file. *)
Definition inheritable (k : string) : bool :=
  bool_decide (k ∈ Object_prototype_names ++ assigned_property_names).

(** ** Telegram login verification *)

(** The character [c] occurs in [s]. *)
Fixpoint occurs (c : Ascii.ascii) (s : string) : bool :=
  match s with
  | EmptyString => false
  | String c' rest => Ascii.eqb c' c || occurs c rest
  end.

Module Node.
(** What [verifyTelegramLogin] takes from the process and from Node's
    [crypto] and [Buffer]: the bot token, [createHash('sha256')] with
    [digest()], [createHmac('sha256', key)] with [digest('hex')], and
    [Buffer.from(s, 'hex')]. *)
Record t : Type := mk
  { BOT_TOKEN : string;
    sha256 : string → list Byte.byte;
    hmac_sha256_hex : list Byte.byte → string → string;
    Buffer_from_hex : string → list Byte.byte }.
End Node.

#[global] Instance byte_eq_dec : EqDecision Byte.byte := Byte.byte_eq_dec.

(** [crypto.timingSafeEqual(a, b)]; [None] stands for the [RangeError] it
    throws when the two buffers differ in length. *)
Definition timingSafeEqual (a b : list Byte.byte) : option bool :=
  if decide (length a = length b) then Some (bool_decide (a = b)) else None.

(** The order of [Array.prototype.sort] without a comparison function, on
    keys of ASCII characters. *)
Definition string_le (a b : string) : Prop := String.leb a b = true.

#[global] Instance string_le_dec a b : Decision (string_le a b) :=
  decide (String.leb a b = true).

Definition newline : string := String "010"%char "".

(** [l.join(sep)] *)
Fixpoint join (sep : string) (l : list string) : string :=
  match l with
  | [] => ""
  | [s] => s
  | s :: rest => s +:+ sep +:+ join sep rest
  end.

(** [`${k}=${data[k]}`] *)
Definition data_check_line (data : gmap string string) (k : string) : string :=
  k +:+ "=" +:+ default "undefined" (data !! k).

(** The [data_check_string] of lines 49-53.  [req.query] is an object whose
    values are strings; the keys of [data] are sorted, so the order in which
    the query lists its fields plays no part. *)
Definition data_check_string (query : gmap string string) : string :=
  let data := delete "hash" query in
  let keys := merge_sort string_le (map_to_list data).*1 in
  join newline (data_check_line data <$> keys).

(** server.js, lines 45-58. *)
Definition verifyTelegramLogin (node : Node.t) (query : gmap string string)
    : option bool :=
  let hash := query !! "hash" in
  if negb (str_truthy hash) then Some false
  else
    let secret := Node.sha256 node (Node.BOT_TOKEN node) in
    let hmac := Node.hmac_sha256_hex node secret (data_check_string query) in
    timingSafeEqual (Node.Buffer_from_hex node hmac)
      (Node.Buffer_from_hex node (default "" hash)).

(** [GET /auth], lines 63-72, from the query; [None] when
    [verifyTelegramLogin] throws, which is before anything is read or
    answered. *)
Definition auth_route (node : Node.t) (query : gmap string string)
    : option (M Response) :=
  verified ← verifyTelegramLogin node query;
  let id := default "undefined" (query !! "id") in
  Some (auth verified id
          (str_or (query !! "username") (str_or (query !! "first_name") ("tg" +:+ id)))
          (str_or (query !! "photo_url") "")).

(** The keys and the values of the signed fields have no line break, and the
    keys have no equals sign. *)
Definition signable (data : gmap string string) : Prop :=
  ∀ k v, data !! k = Some v →
    occurs "=" k = false ∧ occurs "010" k = false ∧ occurs "010" v = false.

(** A stand-in for the functions of [crypto] under which every signature is
    accepted, and the query of a login. *)
Definition accepting_node : Node.t :=
  Node.mk "token" (λ _, []) (λ _ _, "") (λ _, []).

Definition login_query (hash : string) : gmap string string :=
  {[ "id" := "42"; "first_name" := "Ann"; "auth_date" := "1700000000";
     "hash" := hash ]}.

(** ** Routes that read the store *)

(** [GET /api/user] and [GET /api/my_gifts] take the user from the query or,
    without a [userId], from the [x-telegram-initdata] header.  The header
    branches store fields of a parsed JSON value of any shape and are not
    embedded: the two routes are partial functions here, [None] where a
    request leaves the embedded part (a non-empty header without [userId],
    or a [userId] that is inheritable). *)

Inductive Answer : Type :=
  | AnswerError (code : Z) (error : string) (* [res.status(code).json({ error })] *)
  | JsonUser (user : User.t)                (* [res.json(user)] *)
  | JsonGifts (gifts : list Gift.t)         (* [res.json(gifts)] *).

(** [GET /api/user], lines 77-90; [explicitId] is [req.query.userId] and
    [initData] the header. *)
Definition api_user (explicitId initData : option string) : option (M Answer) :=
  if str_truthy explicitId then
    let explicitId := default "" explicitId in
    if inheritable explicitId then None
    else
      Some (db ← loadDB;
            match DB.users db !! explicitId with
            | None => mret (AnswerError 404 "User not found")
            | Some user => mret (JsonUser user)
            end)
  else if str_truthy initData then None
  else Some (loadDB;; mret (AnswerError 400 "No userId or initData")).

(** [GET /api/gifts], lines 114-118.  The answer lists the gifts in the
    order in which their keys were added; the map does not record that
    order, so only the members of the list are meaningful here. *)
Definition api_gifts : M Answer :=
  db ← loadDB;
  mret (JsonGifts
          (filter (λ g, Gift.for_sale g && negb (Gift.sold g))
             (map_to_list (DB.gifts db)).*2)).

(** [GET /api/my_gifts], lines 121-130;
    [ids.map(id => db.gifts[id]).filter(Boolean)].  The identifiers in a
    stored list are looked up as they are; the theorems about this route
    are about stores in which they name stored gifts. *)
Definition api_my_gifts (explicitId initData : option string) : option (M Answer) :=
  if str_truthy explicitId then
    let explicitId := default "" explicitId in
    if inheritable explicitId then None
    else
      Some (db ← loadDB;
            let ids := default [] (User.gifts <$> DB.users db !! explicitId) in
            mret (JsonGifts (omap (λ id, DB.gifts db !! id) ids)))
  else if str_truthy initData then None
  else Some (loadDB;; mret (AnswerError 400 "No initData or userId")).

(** ** Further properties of a store and of a sequence of requests *)

(** What a gift and a user are, apart from the sale state and the balance. *)
Definition gift_identity (g : Gift.t) : string * string * string * string * Z :=
  (Gift.id g, Gift.ownerId g, Gift.name g, Gift.description g, Gift.stars g).

Definition user_identity (u : User.t) : string * string * string * list string :=
  (User.id u, User.username u, User.avatar u, User.gifts u).

(** Every gift is stored under its own [id], which has the form
    [gift-<ms>]; its owner has a user record that lists it; and every user
    is stored under its own [id]. *)
Definition store_well_formed (db : DB.t) : Prop :=
  (∀ id gift, DB.gifts db !! id = Some gift →
     Gift.id gift = id
     ∧ (∃ ms : N, id = "gift-" +:+ pretty ms)
     ∧ ∃ owner, DB.users db !! Gift.ownerId gift = Some owner
                ∧ id ∈ User.gifts owner)
  ∧ (∀ id user, DB.users db !! id = Some user → User.id user = id).

(** Every identifier in a user's list names a stored gift of that user. *)
Definition lists_own_gifts (db : DB.t) : Prop :=
  ∀ userId user id, DB.users db !! userId = Some user → id ∈ User.gifts user →
    ∃ gift, DB.gifts db !! id = Some gift ∧ Gift.ownerId gift = userId.

(** Every sold gift has a purchase record that names its owner as seller. *)
Definition sold_is_recorded (db : DB.t) : Prop :=
  ∀ id gift, DB.gifts db !! id = Some gift → Gift.sold gift = true →
    ∃ p, p ∈ purchases_of id db ∧ Purchase.sellerId p = Gift.ownerId gift.

(** The gift identifier that the webhook reads from the update, when it
    reads one, is not inheritable. *)
Definition plain_update (update : option json) : bool :=
  match read_confirmation update with
  | Some (giftId, _, _) => negb (inheritable giftId)
  | None => true
  end.

(** The identifier that the request looks up is not inheritable. *)
Definition plain_request (r : Request) : bool :=
  match r with
  | Auth _ id _ _ => negb (inheritable id)
  | CreateGift req => negb (inheritable (default "" (CreateGiftReq.ownerId req)))
  | SellGift id _ => negb (inheritable id)
  | PurchaseReq _ giftId => negb (inheritable giftId)
  | Webhook update => plain_update update
  end.


(** Two gifts, made at different instants, listed and sold; the first
    confirmation is delivered a second time. *)
Definition two_sales_trace : list (Env.t * Request) :=
  [(answering_env 5,
    CreateGift (CreateGiftReq.mk (Some "u1") (Some "rose") None (Some 10)));
   (answering_env 6,
    CreateGift (CreateGiftReq.mk (Some "u3") (Some "tulip") None (Some 7)));
   (answering_env 7, SellGift "gift-5" None);
   (answering_env 8, SellGift "gift-6" (Some 9));
   (answering_env 9, Webhook (confirmation "gift-5:u2" 2));
   (answering_env 10, Webhook (confirmation "gift-6:u4" 4));
   (answering_env 11, Webhook (confirmation "gift-5:u2" 2))].

(** * Properties of the handlers *)

(** ** Basic facts about the effects *)

Lemma or_0_id n : or_0 n = n.
Proof. unfold or_0. destruct (Z.eqb_spec n 0); congruence. Qed.

Lemma loadDB_spec w :
  loadDB w = (Ok (contents w), mkWorld (Some (contents w)) (tg_calls w) (console w)).
Proof. destruct w as [[db|] calls out]; reflexivity. Qed.

(** Unfolds the monad down to case distinctions on the world. *)
Ltac unfold_M :=
  cbv beta iota zeta delta
    [mbind M_bind mret M_ret try_catch throw log saveDB member split_call
     webhook_catch] in *.

(** *** The webhook handler, by what it read *)

Lemma truthy_not_nullish v : truthy v = true → nullish v = false.
Proof. destruct v as [[]|]; simpl; congruence. Qed.

Lemma has_successful_payment_inv update :
  has_successful_payment update = true →
  truthy update = true ∧ truthy (get update "message") = true
  ∧ truthy (get (get update "message") "successful_payment") = true.
Proof.
  unfold has_successful_payment. intros H.
  apply andb_true_iff in H as [H H3]. apply andb_true_iff in H as [H1 H2]. auto.
Qed.

Lemma has_successful_payment_iff update :
  has_successful_payment update
  = truthy (get (get update "message") "successful_payment").
Proof.
  unfold has_successful_payment.
  destruct (truthy (get (get update "message") "successful_payment")) eqn:Hsp;
    [|apply andb_false_r].
  assert (Hm : truthy (get update "message") = true).
  { destruct (get update "message") as [[| | | | |]|]; simpl in *; try discriminate; done. }
  assert (Hu : truthy update = true).
  { destruct update as [[| | | | |]|]; simpl in *; try discriminate; done. }
  by rewrite Hu, Hm.
Qed.

Lemma webhook_other env update w :
  has_successful_payment update = false →
  webhook env update w = (Ok (SendStatus 200), w).
Proof. intros H. unfold webhook, try_catch. rewrite H. reflexivity. Qed.

Lemma webhook_unreadable env update w :
  has_successful_payment update = true →
  read_confirmation update = None →
  webhook env update w
  = (Ok (SendStatus 500),
     mkWorld (db_file w) (tg_calls w) (console w ++ [ConsoleError "webhook error" TypeError])).
Proof.
  intros Hsp Hread. unfold read_confirmation in Hread. rewrite Hsp in Hread.
  destruct (has_successful_payment_inv _ Hsp) as (Hu & Hm & Hs).
  unfold webhook. rewrite Hsp. unfold_M.
  rewrite (truthy_not_nullish _ Hu), (truthy_not_nullish _ Hm), (truthy_not_nullish _ Hs).
  unfold message_chat, invoice_payload in Hread. simpl in Hread.
  destruct (nullish (get (get update "message") "chat")); [reflexivity|].
  simpl in Hread.
  destruct (get (get (get update "message") "successful_payment") "invoice_payload")
    as [[| | | | |]|]; first [reflexivity | discriminate].
Qed.

Lemma webhook_readable env update w giftId buyerId chatId :
  read_confirmation update = Some (giftId, buyerId, chatId) →
  webhook env update w
  = try_catch (settlement env giftId buyerId chatId) webhook_catch w.
Proof.
  intros Hread. unfold read_confirmation in Hread.
  destruct (has_successful_payment update) eqn:Hsp; [|discriminate].
  destruct (has_successful_payment_inv _ Hsp) as (Hu & Hm & Hs).
  unfold webhook. rewrite Hsp. unfold_M.
  rewrite (truthy_not_nullish _ Hu), (truthy_not_nullish _ Hm), (truthy_not_nullish _ Hs).
  unfold message_chat, invoice_payload in Hread. simpl in Hread.
  destruct (nullish (get (get update "message") "chat")); [discriminate|].
  simpl in Hread.
  destruct (get (get (get update "message") "successful_payment") "invoice_payload")
    as [[| | |s| |]|]; try discriminate.
  injection Hread as <- <- <-. reflexivity.
Qed.

Lemma webhook_catch_db_file (m : M Response) w :
  db_file (try_catch m webhook_catch w).2 = db_file (m w).2.
Proof. unfold_M. destruct (m w) as [[r|e] w']; reflexivity. Qed.

(** *** The settlement block *)

(** No gift under [giftId], or a sold one: lines 223-225 answer 200 and
    nothing is written or sent. *)
Lemma settlement_skip env giftId buyerId chatId w :
  (∀ gift, DB.gifts (contents w) !! giftId = Some gift → Gift.sold gift = true) →
  settlement env giftId buyerId chatId w
  = (Ok (SendStatus 200), mkWorld (Some (contents w)) (tg_calls w) (console w)).
Proof.
  intros Hsold. unfold settlement. unfold_M. rewrite loadDB_spec.
  destruct (DB.gifts (contents w) !! giftId) as [gift|] eqn:Hg; [|reflexivity].
  by rewrite (Hsold gift eq_refl).
Qed.

(** An unsold gift: the three mutations are saved by the one [saveDB] of
    line 239, before any notification is attempted. *)
Lemma settlement_db_file env giftId buyerId chatId w gift :
  DB.gifts (contents w) !! giftId = Some gift →
  Gift.sold gift = false →
  db_file (settlement env giftId buyerId chatId w).2
  = Some (saved_by_settlement env giftId buyerId gift (contents w)).
Proof.
  intros Hg Hsold. unfold settlement, saved_by_settlement. unfold_M.
  rewrite loadDB_spec, Hg, Hsold. simpl.
  unfold tgApi at 1. simpl.
  destruct (DB.users (contents w) !! Gift.ownerId gift) as [seller|] eqn:Hs; simpl;
    rewrite ?or_0_id;
    destruct (Env.fetch env (length (tg_calls w))); simpl; try reflexivity.
  destruct (negb _); simpl; [|reflexivity].
  unfold tgApi. simpl. destruct (Env.fetch env _); reflexivity.
Qed.

(** The buyer's notification is the first call the block makes. *)
Lemma settlement_buyer_notification_fails env giftId buyerId chatId w gift reason :
  DB.gifts (contents w) !! giftId = Some gift →
  Gift.sold gift = false →
  Env.fetch env (length (tg_calls w)) = TgFail reason →
  (settlement env giftId buyerId chatId w).1 = Throw (FetchError reason).
Proof.
  intros Hg Hsold Hfetch. unfold settlement. unfold_M.
  rewrite loadDB_spec, Hg, Hsold. simpl.
  unfold tgApi at 1. simpl. rewrite Hfetch. reflexivity.
Qed.

(** When the buyer's notification goes through, the answer is 200 whatever
    becomes of the seller's. *)
Lemma settlement_buyer_notified env giftId buyerId chatId w gift result :
  DB.gifts (contents w) !! giftId = Some gift →
  Gift.sold gift = false →
  Env.fetch env (length (tg_calls w)) = TgJson result →
  (settlement env giftId buyerId chatId w).1 = Ok (SendStatus 200).
Proof.
  intros Hg Hsold Hfetch. unfold settlement. unfold_M.
  rewrite loadDB_spec, Hg, Hsold. simpl.
  unfold tgApi. simpl. rewrite Hfetch.
  destruct (DB.users (contents w) !! Gift.ownerId gift) as [seller|]; simpl;
    [|reflexivity].
  destruct (negb _); simpl; [|reflexivity].
  destruct (Env.fetch env (length (tg_calls w ++ _))); reflexivity.
Qed.

(** *** What each handler leaves in the file *)

Lemma auth_contents verified id username avatar w :
  contents (auth verified id username avatar w).2
  = if verified
    then DB.mk (<[id := default (User.mk id username avatar 0 []) (DB.users (contents w) !! id)]>
                  (DB.users (contents w)))
               (DB.gifts (contents w)) (DB.purchases (contents w))
    else contents w.
Proof.
  unfold auth. destruct verified; simpl; [|reflexivity].
  unfold_M. rewrite loadDB_spec. reflexivity.
Qed.

Lemma create_gift_contents env req w :
  contents (create_gift env req w).2
  = if create_gift_accepted req then
      let db := contents w in
      let ownerId := default "" (CreateGiftReq.ownerId req) in
      let id := new_gift_id env in
      let owner := default (User.mk ownerId ownerId "" 0 []) (DB.users db !! ownerId) in
      DB.mk
        (<[ownerId := user_set_gifts (User.gifts owner ++ [id]) owner]> (DB.users db))
        (<[id := Gift.mk id ownerId (default "" (CreateGiftReq.name req))
                   (str_or (CreateGiftReq.description req) "")
                   (stars_or_1 (CreateGiftReq.stars req)) false false]> (DB.gifts db))
        (DB.purchases db)
    else contents w.
Proof.
  unfold create_gift, create_gift_accepted.
  destruct (str_truthy (CreateGiftReq.ownerId req)); simpl; [|reflexivity].
  destruct (str_truthy (CreateGiftReq.name req)); simpl; [|reflexivity].
  unfold_M. rewrite loadDB_spec. reflexivity.
Qed.

Lemma sell_gift_contents id priceStars w :
  contents (sell_gift id priceStars w).2
  = match DB.gifts (contents w) !! id with
    | None => contents w
    | Some gift =>
        let gift := gift_set_for_sale true gift in
        let gift :=
          match priceStars with
          | Some n => if n =? 0 then gift else gift_set_stars n gift
          | None => gift
          end in
        DB.mk (DB.users (contents w)) (<[id := gift]> (DB.gifts (contents w)))
          (DB.purchases (contents w))
    end.
Proof.
  unfold sell_gift. unfold_M. rewrite loadDB_spec.
  destruct (DB.gifts (contents w) !! id); reflexivity.
Qed.

Lemma purchase_db_file env buyerId giftId w :
  db_file (purchase env buyerId giftId w).2 = Some (contents w).
Proof.
  unfold purchase. unfold_M. rewrite loadDB_spec.
  destruct (DB.gifts (contents w) !! giftId) as [gift|]; [|reflexivity].
  destruct (Gift.sold gift || negb (Gift.for_sale gift)); [reflexivity|].
  unfold tgApi. simpl. destruct (Env.fetch env _); reflexivity.
Qed.

Lemma purchase_contents env buyerId giftId w :
  contents (purchase env buyerId giftId w).2 = contents w.
Proof. unfold contents at 1. by rewrite purchase_db_file. Qed.

Lemma webhook_contents env update w :
  contents (webhook env update w).2
  = match settles update w with
    | Some (giftId, buyerId, gift) =>
        saved_by_settlement env giftId buyerId gift (contents w)
    | None => contents w
    end.
Proof.
  unfold settles.
  destruct (has_successful_payment update) eqn:Hsp.
  - destruct (read_confirmation update) as [[[giftId buyerId] chatId]|] eqn:Hread.
    + rewrite (webhook_readable _ _ _ _ _ _ Hread).
      unfold contents at 1. rewrite webhook_catch_db_file.
      destruct (DB.gifts (contents w) !! giftId) as [gift|] eqn:Hg.
      * destruct (Gift.sold gift) eqn:Hsold.
        -- rewrite settlement_skip; [reflexivity|]. intros g' Hg'. congruence.
        -- by rewrite (settlement_db_file _ _ _ _ _ _ Hg Hsold).
      * rewrite settlement_skip; [reflexivity|]. intros g' Hg'. congruence.
    + by rewrite (webhook_unreadable _ _ _ Hsp Hread).
  - rewrite (webhook_other _ _ _ Hsp).
    unfold read_confirmation. rewrite Hsp. reflexivity.
Qed.


(** ** Updates that are not payment confirmations *)

(** C10. An update without a truthy [message.successful_payment] (no message,
    a message without that field, an empty body, a value that is no object
    at all) is answered with status 200 and leaves the whole world as it
    was: the file is not even read, nothing is sent to the provider and
    nothing is logged. *)
Theorem webhook_ignores_other_updates env update w :
  truthy (get (get update "message") "successful_payment") = false →
  webhook env update w = (Ok (SendStatus 200), w).
Proof.
  intros H. apply webhook_other. by rewrite has_successful_payment_iff.
Qed.

(** The empty body [{}] that [bodyParser.json()] hands over for a request
    without one. *)
Lemma webhook_ignores_empty_body :
  truthy (get (get (Some (JObj [])) "message") "successful_payment") = false
  ∧ webhook (answering_env 0) (Some (JObj [])) initial_world
    = (Ok (SendStatus 200), initial_world).
Proof.
  split; [reflexivity|].
  apply (webhook_ignores_other_updates (answering_env 0) (Some (JObj [])) initial_world).
  reflexivity.
Defined.

(** ** Idempotence of the settlement *)



Lemma webhook_unsettled_readable env update w c :
  read_confirmation update = Some c →
  settles update w = None →
  webhook env update w
  = (Ok (SendStatus 200), mkWorld (Some (contents w)) (tg_calls w) (console w)).
Proof.
  destruct c as [[giftId buyerId] chatId]. intros Hread Hs.
  rewrite (webhook_readable _ _ _ _ _ _ Hread). unfold try_catch.
  rewrite settlement_skip; [reflexivity|].
  intros gift Hg. unfold settles in Hs. rewrite Hread, Hg in Hs.
  by destruct (Gift.sold gift).
Qed.

Lemma webhook_unsettled_tg_calls env update w :
  settles update w = None →
  tg_calls (webhook env update w).2 = tg_calls w.
Proof.
  intros Hs.
  destruct (has_successful_payment update) eqn:Hsp.
  - destruct (read_confirmation update) as [c|] eqn:Hread.
    + by rewrite (webhook_unsettled_readable _ _ _ _ Hread Hs).
    + by rewrite (webhook_unreadable _ _ _ Hsp Hread).
  - by rewrite (webhook_other _ _ _ Hsp).
Qed.




(** ** Invariants of the store *)

Lemma owners_registered_empty : owners_registered DB.empty.
Proof. intros id gift H. simpl in H. by rewrite lookup_empty in H. Qed.

Lemma handle_owners_registered env r w :
  owners_registered (contents w) →
  owners_registered (contents (handle env r w).2).
Proof.
  intros Hinv. destruct r as [verified id username avatar|req|id priceStars|buyerId giftId|update];
    simpl.
  - rewrite auth_contents. destruct verified; [|exact Hinv].
    intros g gift Hg. simpl in *.
    apply lookup_insert_is_Some'. right. by eapply Hinv.
  - rewrite create_gift_contents. destruct (create_gift_accepted req); [|exact Hinv].
    intros g gift Hg. simpl in *.
    apply lookup_insert_Some in Hg as [[_ <-]|[_ Hg]]; simpl.
    + by rewrite lookup_insert_eq.
    + apply lookup_insert_is_Some'. right. by eapply Hinv.
  - rewrite sell_gift_contents.
    destruct (DB.gifts (contents w) !! id) as [gift0|] eqn:Hg0; [|exact Hinv].
    intros g gift Hg. simpl in *.
    apply lookup_insert_Some in Hg as [[_ <-]|[_ Hg]].
    + assert (is_Some (DB.users (contents w) !! Gift.ownerId gift0)) by by eapply Hinv.
      by destruct priceStars as [n|]; [destruct (n =? 0)|].
    + by eapply Hinv.
  - by rewrite purchase_contents.
  - rewrite webhook_contents.
    destruct (settles update w) as [[[giftId buyerId] gift0]|] eqn:Hs; [|exact Hinv].
    assert (Hg0 : DB.gifts (contents w) !! giftId = Some gift0).
    { unfold settles in Hs. destruct (read_confirmation update) as [[[g b] c]|]; [|done].
      destruct (DB.gifts (contents w) !! g) as [gift1|] eqn:Hg1; [|done].
      destruct (Gift.sold gift1); [done|]. by injection Hs as <- <- <-. }
    assert (Hkeep : ∀ k, is_Some (DB.users (contents w) !! k) →
              is_Some (DB.users (saved_by_settlement env giftId buyerId gift0 (contents w)) !! k)).
    { intros k Hk. unfold saved_by_settlement. simpl.
      destruct (DB.users (contents w) !! Gift.ownerId gift0); [|exact Hk].
      apply lookup_insert_is_Some'. by right. }
    intros g gift Hg. apply Hkeep. simpl in Hg.
    apply lookup_insert_Some in Hg as [[_ <-]|[_ Hg]]; simpl; by eapply Hinv.
Qed.

Lemma run_owners_registered trace w :
  owners_registered (contents w) →
  owners_registered (contents (run trace w)).
Proof.
  revert w. induction trace as [|[env r] trace IH]; intros w Hinv; simpl; [done|].
  apply IH. by apply handle_owners_registered.
Qed.

Lemma settles_lookup update w giftId buyerId gift :
  settles update w = Some (giftId, buyerId, gift) →
  DB.gifts (contents w) !! giftId = Some gift ∧ Gift.sold gift = false.
Proof.
  unfold settles. intros Hs.
  destruct (read_confirmation update) as [[[g b] c]|]; [|done].
  destruct (DB.gifts (contents w) !! g) as [gift1|] eqn:Hg1; [|done].
  destruct (Gift.sold gift1) eqn:Hsold; [done|]. by injection Hs as <- <- <-.
Qed.

(** ** The settlement as one unit *)






(** ** Sold implies not for sale *)

Lemma listed_gift_world_gifts :
  DB.gifts (contents listed_gift_world)
  = {["gift-5" := Gift.mk "gift-5" "u1" "rose" "" 10 true false]}.
Proof. reflexivity. Qed.

Lemma sold_gift_world_gifts :
  DB.gifts (contents sold_gift_world)
  = {["gift-5" := Gift.mk "gift-5" "u1" "rose" "" 10 false true]}.
Proof. reflexivity. Qed.

(** Counterexample to C2 as stated: [sell_gift] on a gift that was sold puts
    it up for sale again, and the store, which satisfied the invariant,
    holds a gift with [sold = true] and [for_sale = true]. *)
Lemma sell_gift_relists_sold_gift :
  sold_not_for_sale (contents sold_gift_world)
  ∧ DB.gifts (contents (handle (answering_env 9) (SellGift "gift-5" None) sold_gift_world).2)
      !! "gift-5"
    = Some (Gift.mk "gift-5" "u1" "rose" "" 10 true true)
  ∧ ¬ sold_not_for_sale
        (contents (handle (answering_env 9) (SellGift "gift-5" None) sold_gift_world).2).
Proof.
  split; [|split].
  - intros id gift Hg _. rewrite sold_gift_world_gifts in Hg.
    apply lookup_singleton_Some in Hg as [_ <-]. reflexivity.
  - reflexivity.
  - intros Hinv.
    specialize (Hinv "gift-5" (Gift.mk "gift-5" "u1" "rose" "" 10 true true) eq_refl eq_refl).
    discriminate.
Qed.

(** C2, amended. From a store in which every sold gift is not for sale,
    [auth], [create_gift], [purchase] and the webhook settlement lead to such
    a store again, and so does [sell_gift] when the gift it names is missing
    or not sold. *)
Theorem sold_not_for_sale_preserved env r w :
  sold_not_for_sale (contents w) →
  match r with
  | SellGift id _ =>
      ∀ gift, DB.gifts (contents w) !! id = Some gift → Gift.sold gift = false
  | _ => True
  end →
  sold_not_for_sale (contents (handle env r w).2).
Proof.
  intros Hinv Hsell.
  destruct r as [verified id username avatar|req|id priceStars|buyerId giftId|update];
    simpl.
  - rewrite auth_contents. by destruct verified.
  - rewrite create_gift_contents. destruct (create_gift_accepted req); [|exact Hinv].
    intros g gift Hg Hsold. simpl in Hg.
    apply lookup_insert_Some in Hg as [[_ <-]|[_ Hg]]; [done|]. by eapply Hinv.
  - rewrite sell_gift_contents.
    destruct (DB.gifts (contents w) !! id) as [gift0|] eqn:Hg0; [|exact Hinv].
    intros g gift Hg Hsold. simpl in Hg.
    apply lookup_insert_Some in Hg as [[_ <-]|[_ Hg]]; [|by eapply Hinv].
    specialize (Hsell gift0 eq_refl).
    destruct priceStars as [n|]; [destruct (n =? 0)|]; simpl in Hsold; congruence.
  - by rewrite purchase_contents.
  - rewrite webhook_contents.
    destruct (settles update w) as [[[giftId buyerId] gift0]|] eqn:Hs; [|exact Hinv].
    intros g gift Hg Hsold. simpl in Hg.
    apply lookup_insert_Some in Hg as [[_ <-]|[_ Hg]]; [done|]. by eapply Hinv.
Qed.

Lemma sold_not_for_sale_preserved_scenario :
  sold_not_for_sale (contents listed_gift_world)
  ∧ (∀ gift, DB.gifts (contents listed_gift_world) !! "gift-5" = Some gift →
             Gift.sold gift = false)
  ∧ sold_not_for_sale
      (contents (handle (answering_env 8) (SellGift "gift-5" (Some 20))
                   listed_gift_world).2).
Proof.
  assert (H : sold_not_for_sale (contents listed_gift_world)).
  { intros id gift Hg Hsold. rewrite listed_gift_world_gifts in Hg.
    apply lookup_singleton_Some in Hg as [_ <-]. discriminate. }
  assert (H' : ∀ gift, DB.gifts (contents listed_gift_world) !! "gift-5" = Some gift →
                       Gift.sold gift = false).
  { intros gift Hg. rewrite listed_gift_world_gifts in Hg.
    apply lookup_singleton_Some in Hg as [_ <-]. reflexivity. }
  split; [exact H|]. split; [exact H'|].
  exact (sold_not_for_sale_preserved (answering_env 8)
           (SellGift "gift-5" (Some 20)) listed_gift_world H H').
Defined.

(** ** No double sale *)



Lemma purchases_of_app giftId users gifts l record :
  purchases_of giftId (DB.mk users gifts (l ++ [record]))
  = purchases_of giftId (DB.mk users gifts l)
    ++ (if decide (Purchase.giftId record = giftId) then [record] else []).
Proof.
  unfold purchases_of. simpl. rewrite filter_app. reflexivity.
Qed.






(** ** Issuing an invoice *)

(** When the call to the provider fails, the [catch] of line 202 logs the
    error and answers 500. *)
Lemma purchase_provider_unreachable env buyerId giftId w gift reason :
  DB.gifts (contents w) !! giftId = Some gift →
  Gift.for_sale gift = true → Gift.sold gift = false →
  Env.fetch env (length (tg_calls w)) = TgFail reason →
  (purchase env buyerId giftId w).1 = Ok (JsonError 500 "internal").
Proof.
  intros Hg Hfs Hsold Hfetch. unfold purchase. unfold_M.
  rewrite loadDB_spec, Hg, Hsold, Hfs. simpl.
  unfold tgApi. simpl. by rewrite Hfetch.
Qed.

(** C5.  For a gift identifier that is not inheritable, a purchase request
    is answered with status 400 and the error [Gift not available] exactly
    when the gift is not stored, or is not for sale, or is sold, and then
    nothing is sent to the provider.  Otherwise exactly one [sendInvoice]
    request, with the invoice of that gift, is sent, and the acknowledgment
    the provider answers with is returned as it is.  (For an inheritable
    identifier that is not stored the test of line 178 is applied to a
    built-in object, whose [for_sale] an earlier [sell_gift] may have set.) *)
Theorem purchase_rejected_iff_unavailable env buyerId giftId w :
  inheritable giftId = false →
  let r := purchase env buyerId giftId w in
  (r.1 = Ok (JsonError 400 "Gift not available") ↔ unavailable (contents w) giftId)
  ∧ (unavailable (contents w) giftId → tg_calls r.2 = tg_calls w)
  ∧ (¬ unavailable (contents w) giftId →
       ∃ gift,
         DB.gifts (contents w) !! giftId = Some gift
         ∧ tg_calls r.2
           = tg_calls w
             ++ [mkTgCall "sendInvoice"
                   (SendInvoiceBody (build_invoice env buyerId giftId gift))]
         ∧ ∀ acknowledgment,
             Env.fetch env (length (tg_calls w)) = TgJson acknowledgment →
             r.1 = Ok (JsonResult acknowledgment)).
Proof.
  intros _ r. subst r. unfold purchase, unavailable. unfold_M. rewrite loadDB_spec.
  destruct (DB.gifts (contents w) !! giftId) as [gift|] eqn:Hg.
  - destruct (Gift.sold gift) eqn:Hsold; simpl.
    { split; [split; [intros _; right; eauto|done]|]. split; [done|].
      intros []. right. eauto. }
    destruct (Gift.for_sale gift) eqn:Hfs; simpl.
    + unfold tgApi. simpl.
      assert (Hav : ¬ (Some gift = None
                ∨ ∃ g, Some gift = Some g ∧ (Gift.for_sale g = false ∨ Gift.sold g = true))).
      { intros [?|(g & [= <-] & [?|?])]; congruence. }
      split; [|split].
      * split; [|intros H; by destruct Hav].
        destruct (Env.fetch env _); simpl; discriminate.
      * intros H; by destruct Hav.
      * intros _. exists gift. split; [done|].
        destruct (Env.fetch env _); simpl; split; try done.
        by intros ? [= ->].
    + split; [split; [intros _; right; eauto|done]|]. split; [done|].
      intros []. right. eauto.
  - split; [split; [intros _; by left|done]|]. split; [done|].
    intros []. by left.
Qed.

(** ** Requests that do not settle *)

Lemma same_sale_state_refl db : same_sale_state db db.
Proof.
  split; [done|]. split.
  - intros id user H. by rewrite H.
  - eauto.
Qed.

Lemma handle_same_sale_state env r w :
  is_webhook r = false →
  same_sale_state (contents w) (contents (handle env r w).2).
Proof.
  intros Hr.
  destruct r as [verified id username avatar|req|id priceStars|buyerId giftId|update];
    simpl; [| | | |discriminate].
  - rewrite auth_contents. destruct verified; [|apply same_sale_state_refl].
    split; [done|]. split; simpl; [|eauto].
    intros k user Hk. destruct (decide (id = k)) as [->|Hne].
    + by rewrite lookup_insert_eq, Hk.
    + by rewrite lookup_insert_ne, Hk.
  - rewrite create_gift_contents.
    destruct (create_gift_accepted req); [|apply same_sale_state_refl].
    split; [done|]. split; simpl.
    + intros k user Hk.
      destruct (decide (default "" (CreateGiftReq.ownerId req) = k)) as [->|Hne].
      * by rewrite lookup_insert_eq, Hk.
      * by rewrite lookup_insert_ne, Hk.
    + intros k gift' Hg Hsold.
      apply lookup_insert_Some in Hg as [[_ <-]|[_ Hg]]; [done|eauto].
  - rewrite sell_gift_contents.
    destruct (DB.gifts (contents w) !! id) as [gift0|] eqn:Hg0;
      [|apply same_sale_state_refl].
    split; [done|]. split; simpl.
    + intros k user Hk. by rewrite Hk.
    + intros k gift' Hg Hsold.
      apply lookup_insert_Some in Hg as [[<- <-]|[_ Hg]]; [|eauto].
      exists gift0. split; [done|].
      by destruct priceStars as [n|]; [destruct (n =? 0)|].
  - rewrite purchase_contents. apply same_sale_state_refl.
Qed.

(** C6. A purchase request, accepted or rejected and whatever the provider
    does, leaves the stored users, gifts and purchases as they were (a
    missing file is created holding the empty store).  Of all requests,
    only the webhook changes the sale state: any other request leaves the
    ledger, the balances and the set of sold gifts as they were. *)
Theorem purchase_changes_nothing env buyerId giftId w :
  let w' := (purchase env buyerId giftId w).2 in
  db_file w' = Some (contents w)
  ∧ DB.users (contents w') = DB.users (contents w)
  ∧ DB.gifts (contents w') = DB.gifts (contents w)
  ∧ DB.purchases (contents w') = DB.purchases (contents w)
  ∧ ∀ r, is_webhook r = false →
         same_sale_state (contents w) (contents (handle env r w).2).
Proof.
  intros w'. subst w'. rewrite purchase_contents.
  split; [apply purchase_db_file|]. repeat (split; [reflexivity|]).
  intros r. apply handle_same_sale_state.
Qed.

(** The scenario of the specification: a listed gift of 10 stars is invoiced
    with the payload [gift-5:u2] at 1560 minor units. *)
Lemma purchase_scenario :
  let w := run [(answering_env 5,
                 CreateGift (CreateGiftReq.mk (Some "u1") (Some "rose") None (Some 10)));
                (answering_env 6, SellGift "gift-5" None)] initial_world in
  let r := purchase (answering_env 7) "u2" "gift-5" w in
  inheritable "gift-5" = false
  ∧ ¬ unavailable (contents w) "gift-5"
  ∧ tg_calls r.2
    = [mkTgCall "sendInvoice"
         (SendInvoiceBody
            (Invoice.mk "u2" "rose" default_description "gift-5:u2"
               (Some "provider-token") "RUB" "rose" 1560 "buy-gift-5"))]
  ∧ r.1 = Ok (JsonResult (JObj [("ok", JBool true)])).
Proof.
  assert (Hav : ¬ unavailable
            (contents (run [(answering_env 5,
                             CreateGift (CreateGiftReq.mk (Some "u1") (Some "rose") None
                                           (Some 10)));
                            (answering_env 6, SellGift "gift-5" None)] initial_world))
            "gift-5").
  { intros [H|(gift & Hg & H)]; [discriminate H|].
    injection Hg as <-. destruct H; discriminate. }
  split; [reflexivity|]. split; [exact Hav|].
  pose proof (purchase_rejected_iff_unavailable (answering_env 7) "u2" "gift-5"
    (run [(answering_env 5,
           CreateGift (CreateGiftReq.mk (Some "u1") (Some "rose") None (Some 10)));
          (answering_env 6, SellGift "gift-5" None)] initial_world) eq_refl)
    as (_ & _ & H).
  destruct (H Hav) as (gift & Hg & Hcalls & Hresp).
  injection Hg as <-.
  split; [|exact (Hresp _ eq_refl)]. simpl. simpl in Hcalls. rewrite Hcalls.
  vm_compute. reflexivity.
Defined.

(** ** Notifications *)

(** The buyer's notification (line 242) is awaited outside any inner [try]:
    when it fails, the [catch] of line 256 answers 500, after the sale was
    saved. *)
Lemma webhook_buyer_notification_fails env update w giftId buyerId gift reason :
  settles update w = Some (giftId, buyerId, gift) →
  Env.fetch env (length (tg_calls w)) = TgFail reason →
  (webhook env update w).1 = Ok (SendStatus 500)
  ∧ contents (webhook env update w).2
    = saved_by_settlement env giftId buyerId gift (contents w).
Proof.
  intros Hs Hfetch. split; [|by rewrite webhook_contents, Hs].
  destruct (settles_lookup _ _ _ _ _ Hs) as [Hg Hsold].
  unfold settles in Hs.
  destruct (read_confirmation update) as [[[g b] c]|] eqn:Hread; [|done].
  assert (Hg' : DB.gifts (contents w) !! g = Some gift).
  { destruct (DB.gifts (contents w) !! g) as [gift1|]; [|done].
    destruct (Gift.sold gift1); [done|]. by injection Hs as <- <- <-. }
  rewrite (webhook_readable _ _ _ _ _ _ Hread). unfold try_catch.
  pose proof (settlement_buyer_notification_fails env g b c w gift reason Hg' Hsold Hfetch)
    as Hthrow.
  destruct (settlement env g b c w) as [[resp|e] w1]; simpl in Hthrow; [done|].
  reflexivity.
Qed.

(** The seller's notification (lines 245-249) has a [try] of its own: once
    the buyer's went through, the answer is 200 whether or not the seller's
    does. *)
Lemma webhook_seller_notification_is_best_effort env update w giftId buyerId gift result :
  settles update w = Some (giftId, buyerId, gift) →
  Env.fetch env (length (tg_calls w)) = TgJson result →
  (webhook env update w).1 = Ok (SendStatus 200).
Proof.
  intros Hs Hfetch.
  destruct (settles_lookup _ _ _ _ _ Hs) as [Hg Hsold].
  unfold settles in Hs.
  destruct (read_confirmation update) as [[[g b] c]|] eqn:Hread; [|done].
  assert (Hg' : DB.gifts (contents w) !! g = Some gift).
  { destruct (DB.gifts (contents w) !! g) as [gift1|]; [|done].
    destruct (Gift.sold gift1); [done|]. by injection Hs as <- <- <-. }
  rewrite (webhook_readable _ _ _ _ _ _ Hread). unfold try_catch.
  pose proof (settlement_buyer_notified env g b c w gift result Hg' Hsold Hfetch) as Hok.
  destruct (settlement env g b c w) as [[resp|e] w1]; simpl in Hok; [|done].
  by injection Hok as ->.
Qed.

(** C7, at the failing input.  The confirmation of the scenario arrives
    while the Bot API cannot be reached: the sale is saved, the failure of
    the buyer's notification is logged as a webhook error, and the provider
    is answered 500 instead of 200.  With only the seller's notification
    failing, the answer is 200 and the failure is logged as a warning. *)
Theorem notification_failure_scenario :
  let update := confirmation "gift-5:u2" 2 in
  let r := webhook (offline_env 8) update listed_gift_world in
  let r' := webhook (failing_at 2 8) update listed_gift_world in
  Gift.sold <$> DB.gifts (contents r.2) !! "gift-5" = Some true
  ∧ User.stars <$> DB.users (contents r.2) !! "u1" = Some 10
  ∧ r.1 = Ok (SendStatus 500)
  ∧ console r.2 = [ConsoleError "webhook error" (FetchError "network")]
  ∧ r'.1 = Ok (SendStatus 200)
  ∧ console r'.2 = [ConsoleWarn "notify seller failed" (FetchError "network")].
Proof. repeat split. Qed.

(** ** Payloads that do not have the form [giftId:buyerId] *)

(** A payload without colon is read as a gift identifier without buyer. *)
Lemma read_confirmation_without_colon update s :
  has_successful_payment update = true →
  nullish (message_chat update) = false →
  invoice_payload update = Some (JStr s) →
  split ":"%char s = [s] →
  read_confirmation update = Some (s, None, get (message_chat update) "id").
Proof.
  intros Hsp Hchat Hpayload Hsplit. unfold read_confirmation.
  rewrite Hsp, Hchat, Hpayload, Hsplit. reflexivity.
Qed.

Lemma read_confirmation_not_a_string update :
  (∀ s, invoice_payload update ≠ Some (JStr s)) →
  read_confirmation update = None.
Proof.
  intros Hpayload. unfold read_confirmation.
  destruct (_ && _); [|reflexivity].
  destruct (invoice_payload update) as [[| | |s| |]|]; try reflexivity.
  by destruct (Hpayload s).
Qed.

(** Counterexample to C9 as stated: the payload [gift-5] has no colon, and
    the handler settles the stored gift of that name: it is marked sold, its
    owner is credited and a purchase without buyer is recorded. *)
Lemma payload_without_colon_is_settled :
  let update := confirmation "gift-5" 2 in
  let w' := (webhook (answering_env 8) update listed_gift_world).2 in
  split ":"%char "gift-5" = ["gift-5"]
  ∧ Gift.sold <$> DB.gifts (contents listed_gift_world) !! "gift-5" = Some false
  ∧ Gift.sold <$> DB.gifts (contents w') !! "gift-5" = Some true
  ∧ User.stars <$> DB.users (contents listed_gift_world) !! "u1" = Some 0
  ∧ User.stars <$> DB.users (contents w') !! "u1" = Some 10
  ∧ DB.purchases (contents listed_gift_world) = []
  ∧ Purchase.buyerId <$> DB.purchases (contents w') = [None]
  ∧ contents w' ≠ contents listed_gift_world.
Proof.
  repeat split. intros H. apply (f_equal DB.purchases) in H. discriminate.
Qed.

(** C9, amended.  For a confirmation in a message that carries a chat:
    a payload that is a string without colon is read as the identifier of a
    gift, and, when that identifier is not inheritable, the handler leaves
    users, gifts and purchases as they were exactly when no unsold gift is
    stored under it; it then answers 200 and sends nothing.  A payload that
    is not a string is answered 500, and users, gifts and purchases stay as
    they were. *)
Theorem payload_without_colon env update w :
  has_successful_payment update = true →
  nullish (message_chat update) = false →
  let r := webhook env update w in
  (∀ s, invoice_payload update = Some (JStr s) → split ":"%char s = [s] →
     inheritable s = false →
     (contents r.2 = contents w
      ↔ ∀ gift, DB.gifts (contents w) !! s = Some gift → Gift.sold gift = true)
     ∧ ((∀ gift, DB.gifts (contents w) !! s = Some gift → Gift.sold gift = true) →
        r.1 = Ok (SendStatus 200) ∧ tg_calls r.2 = tg_calls w))
  ∧ ((∀ s, invoice_payload update ≠ Some (JStr s)) →
     r.1 = Ok (SendStatus 500) ∧ db_file r.2 = db_file w ∧ tg_calls r.2 = tg_calls w).
Proof.
  intros Hsp Hchat r. subst r. split.
  - intros s Hpayload Hsplit _.
    pose proof (read_confirmation_without_colon _ _ Hsp Hchat Hpayload Hsplit) as Hread.
    assert (Hsettles : settles update w
              = match DB.gifts (contents w) !! s with
                | Some gift => if Gift.sold gift then None else Some (s, None, gift)
                | None => None
                end).
    { unfold settles. by rewrite Hread. }
    split.
    + rewrite webhook_contents, Hsettles. split.
      * intros Hsame gift Hg. rewrite Hg in Hsame.
        destruct (Gift.sold gift) eqn:Hsold; [reflexivity|]. exfalso.
        apply (f_equal (λ db, Gift.sold <$> DB.gifts db !! s)) in Hsame.
        simpl in Hsame. rewrite lookup_insert_eq, Hg in Hsame. simpl in Hsame.
        congruence.
      * intros Hsold. destruct (DB.gifts (contents w) !! s) as [gift|]; [|reflexivity].
        by rewrite (Hsold gift eq_refl).
    + intros Hsold.
      assert (Hnone : settles update w = None).
      { rewrite Hsettles. destruct (DB.gifts (contents w) !! s) as [gift|]; [|reflexivity].
        by rewrite (Hsold gift eq_refl). }
      by rewrite (webhook_unsettled_readable _ _ _ _ Hread Hnone).
  - intros Hpayload.
    by rewrite (webhook_unreadable _ _ _ Hsp (read_confirmation_not_a_string _ Hpayload)).
Qed.

Lemma payload_without_colon_scenario :
  let update := confirmation "no-such-gift" 2 in
  let r := webhook (answering_env 8) update listed_gift_world in
  has_successful_payment update = true
  ∧ nullish (message_chat update) = false
  ∧ inheritable "no-such-gift" = false
  ∧ contents r.2 = contents listed_gift_world
  ∧ r.1 = Ok (SendStatus 200).
Proof.
  pose proof (payload_without_colon (answering_env 8) (confirmation "no-such-gift" 2)
                listed_gift_world eq_refl eq_refl) as [H _].
  specialize (H "no-such-gift" eq_refl eq_refl eq_refl) as [[_ Hsame] Hack].
  assert (Hsold : ∀ gift,
            DB.gifts (contents listed_gift_world) !! "no-such-gift" = Some gift →
            Gift.sold gift = true) by (intros gift Hg; discriminate Hg).
  split; [reflexivity|]. split; [reflexivity|]. split; [reflexivity|].
  split; [exact (Hsame Hsold)|exact (proj1 (Hack Hsold))].
Defined.

(** ** The price *)

Lemma holds_from_spec n z f :
  holds_from n z f = true →
  ∀ i, z ≤ i < z + Z.of_nat n → f i = true.
Proof.
  revert z. induction n as [|n IH]; intros z H i Hi; [lia|].
  simpl in H. apply andb_true_iff in H as [Hz Hrest].
  destruct (decide (i = z)) as [->|Hne]; [done|].
  apply (IH (z + 1) Hrest). lia.
Qed.

Lemma price_exact_spec stars :
  price_exact stars = true →
  calculateRubles stars = Number_of_hundredths false (156 * stars)
  ∧ amountKopecks stars = Z2float (156 * stars).
Proof.
  unfold price_exact, amountKopecks. intros H. apply andb_true_iff in H as [H1 H2].
  split; by apply FloatAxioms.Leibniz.eqb_spec.
Qed.

(** ** Rounding to binary64 *)

(** [digits2_pos] counts the binary digits. *)
Lemma digits2_pos_size p : digits2_pos p = Pos.size p.
Proof. induction p as [p IH|p IH|]; simpl; congruence. Qed.

Lemma digits2_bounds p :
  2 ^ (Z.pos (digits2_pos p) - 1) ≤ Z.pos p < 2 ^ Z.pos (digits2_pos p).
Proof.
  induction p as [p IH|p IH|]; simpl digits2_pos.
  - rewrite Pos2Z.inj_succ. change (Z.pos p~1) with (2 * Z.pos p + 1).
    replace (Z.succ (Z.pos (digits2_pos p)) - 1) with (Z.succ (Z.pos (digits2_pos p) - 1)) by lia.
    rewrite !Z.pow_succ_r by lia.
    revert IH. generalize (2 ^ (Z.pos (digits2_pos p) - 1)) (2 ^ Z.pos (digits2_pos p)). lia.
  - rewrite Pos2Z.inj_succ. change (Z.pos p~0) with (2 * Z.pos p).
    replace (Z.succ (Z.pos (digits2_pos p)) - 1) with (Z.succ (Z.pos (digits2_pos p) - 1)) by lia.
    rewrite !Z.pow_succ_r by lia.
    revert IH. generalize (2 ^ (Z.pos (digits2_pos p) - 1)) (2 ^ Z.pos (digits2_pos p)). lia.
  - simpl. lia.
Qed.

Lemma digits2_unique p d :
  2 ^ (d - 1) ≤ Z.pos p < 2 ^ d → Z.pos (digits2_pos p) = d.
Proof.
  intros [Hlo Hhi]. pose proof (digits2_bounds p) as [Hlo' Hhi'].
  assert (0 < d).
  { destruct (Z.lt_trichotomy d 0) as [?|[->|?]]; [|simpl in Hhi; lia|done].
    rewrite Z.pow_neg_r in Hhi by done. lia. }
  apply Z.le_antisymm.
  - apply Z.nlt_ge. intros Hlt.
    assert (2 ^ d ≤ 2 ^ (Z.pos (digits2_pos p) - 1)) by (apply Z.pow_le_mono_r; lia).
    lia.
  - apply Z.nlt_ge. intros Hlt.
    assert (2 ^ Z.pos (digits2_pos p) ≤ 2 ^ (d - 1)) by (apply Z.pow_le_mono_r; lia).
    lia.
Qed.

Lemma shr_1_located mrs a b :
  0 ≤ shr_m mrs → 0 < b →
  located (shr_m mrs) (loc_of_shr_record mrs) a b →
  located (shr_m (shr_1 mrs)) (loc_of_shr_record (shr_1 mrs)) a (2 * b)
  ∧ shr_m (shr_1 mrs) = shr_m mrs / 2.
Proof.
  destruct mrs as [m r s]. simpl shr_m. intros Hm Hb Hloc.
  destruct m as [|[p|p|]|]; [| | | |lia].
  - destruct r, s; simpl in *; (split; [lia|reflexivity]).
  - assert (Hdiv : Z.pos p = Z.pos p~1 / 2).
    { apply (Z.div_unique _ 2 _ 1); lia. }
    rewrite <- Hdiv. change (Z.pos p~1) with (2 * Z.pos p + 1) in Hloc.
    destruct r, s; simpl in *; (split; [lia|reflexivity]).
  - assert (Hdiv : Z.pos p = Z.pos p~0 / 2).
    { apply (Z.div_unique _ 2 _ 0); lia. }
    rewrite <- Hdiv. change (Z.pos p~0) with (2 * Z.pos p) in Hloc.
    destruct r, s; simpl in *; (split; [lia|reflexivity]).
  - destruct r, s; simpl in *; (split; [lia|reflexivity]).
Qed.

Lemma loc_of_shr_record_of_loc m l :
  loc_of_shr_record (shr_record_of_loc m l) = l
  ∧ shr_m (shr_record_of_loc m l) = m.
Proof. by destruct l as [|[]]. Qed.

Lemma iter_shr_1_located p : ∀ mrs a b,
  0 ≤ shr_m mrs → 0 < b →
  located (shr_m mrs) (loc_of_shr_record mrs) a b →
  located (shr_m (SpecFloat.iter_pos shr_1 p mrs)) (loc_of_shr_record (SpecFloat.iter_pos shr_1 p mrs))
    a (2 ^ Z.pos p * b)
  ∧ shr_m (SpecFloat.iter_pos shr_1 p mrs) = shr_m mrs / 2 ^ Z.pos p.
Proof.
  induction p as [p IH|p IH|]; intros mrs a b Hm Hb Hloc; simpl SpecFloat.iter_pos.
  - destruct (shr_1_located mrs a b Hm Hb Hloc) as [H1 E1].
    assert (Hm1 : 0 ≤ shr_m (shr_1 mrs)) by (rewrite E1; apply Z.div_pos; lia).
    destruct (IH _ a (2 * b) Hm1 ltac:(lia) H1) as [H2 E2].
    assert (Hp : 0 < 2 ^ Z.pos p) by (apply Z.pow_pos_nonneg; lia).
    assert (Hm2 : 0 ≤ shr_m (SpecFloat.iter_pos shr_1 p (shr_1 mrs)))
      by (rewrite E2; apply Z.div_pos; lia).
    destruct (IH _ a (2 ^ Z.pos p * (2 * b)) Hm2 ltac:(lia) H2) as [H3 E3].
    replace (Z.pos p~1) with (1 + (Z.pos p + Z.pos p)) by lia.
    rewrite !Z.pow_add_r by lia. change (2 ^ 1) with 2. split.
    + replace (2 * (2 ^ Z.pos p * 2 ^ Z.pos p) * b)
        with (2 ^ Z.pos p * (2 ^ Z.pos p * (2 * b))) by ring. exact H3.
    + rewrite E3, E2, E1, !Z.div_div by lia. f_equal.
  - destruct (IH _ a b Hm Hb Hloc) as [H2 E2].
    assert (Hp : 0 < 2 ^ Z.pos p) by (apply Z.pow_pos_nonneg; lia).
    assert (Hm2 : 0 ≤ shr_m (SpecFloat.iter_pos shr_1 p mrs))
      by (rewrite E2; apply Z.div_pos; lia).
    destruct (IH _ a (2 ^ Z.pos p * b) Hm2 ltac:(lia) H2) as [H3 E3].
    replace (Z.pos p~0) with (Z.pos p + Z.pos p) by lia.
    rewrite !Z.pow_add_r by lia. split.
    + replace (2 ^ Z.pos p * 2 ^ Z.pos p * b)
        with (2 ^ Z.pos p * (2 ^ Z.pos p * b)) by ring. exact H3.
    + rewrite E3, E2, !Z.div_div by lia. f_equal.
  - destruct (shr_1_located mrs a b Hm Hb Hloc) as [H1 E1].
    change (2 ^ 1) with 2. by split.
Qed.

(** Rounding to nearest, ties to even, of the value located at [l] above
    [m]: at most half a unit away. *)
Lemma round_nearest_even_located m l a b :
  0 < b → located m l a b →
  m ≤ round_nearest_even m l ≤ m + 1
  ∧ 2 * Z.abs (round_nearest_even m l * b - a) ≤ b.
Proof.
  intros Hb Hloc. destruct l as [|[]]; simpl in *; [lia| |lia|lia].
  destruct (Z.even m); lia.
Qed.

Lemma shr_fexp_spec m e l a b :
  0 < b → located (Z.pos m) l a b →
  0 ≤ Z.pos (digits2_pos m) - 53 →
  -1074 ≤ e + (Z.pos (digits2_pos m) - 53) →
  ∃ mrs,
    shr_fexp prec emax (Z.pos m) e l = (mrs, e + (Z.pos (digits2_pos m) - 53))
    ∧ located (shr_m mrs) (loc_of_shr_record mrs) a
        (2 ^ (Z.pos (digits2_pos m) - 53) * b)
    ∧ shr_m mrs = Z.pos m / 2 ^ (Z.pos (digits2_pos m) - 53).
Proof.
  intros Hb Hloc Hn He. unfold shr_fexp, fexp, emin, prec, emax. simpl Zdigits2.
  rewrite Z.max_l by lia.
  replace (Z.pos (digits2_pos m) + e - 53 - e) with (Z.pos (digits2_pos m) - 53) by lia.
  destruct (loc_of_shr_record_of_loc (Z.pos m) l) as [El Em].
  destruct (Z.pos (digits2_pos m) - 53) as [|n|n] eqn:En; [| |lia].
  - exists (shr_record_of_loc (Z.pos m) l). simpl shr.
    rewrite El, Em, Z.add_0_r. change (2 ^ 0) with 1.
    rewrite Z.mul_1_l, Z.div_1_r. done.
  - exists (SpecFloat.iter_pos shr_1 n (shr_record_of_loc (Z.pos m) l)). simpl shr.
    split; [done|].
    destruct (iter_shr_1_located n (shr_record_of_loc (Z.pos m) l) a b) as [H1 H2];
      [rewrite Em; lia|done|by rewrite El, Em|].
    rewrite Em in H2. by split.
Qed.

(** The mantissa and exponent that [binary_round_aux] returns for a value
    [a / b * 2 ^ ex] located at [lx] above [mx], away from overflow and from
    the subnormal range: a 53-bit mantissa at most half a unit in the last
    place away from the value. *)
Lemma binary_round_aux_spec sx mx ex lx a b :
  0 < b → located (Z.pos mx) lx a b →
  53 ≤ Z.pos (digits2_pos mx) →
  -1074 ≤ ex + Z.pos (digits2_pos mx) - 53 →
  ex + Z.pos (digits2_pos mx) - 52 ≤ 971 →
  ∃ m e,
    binary_round_aux prec emax sx (Z.pos mx) ex lx = S754_finite sx m e
    ∧ 2 ^ 52 ≤ Z.pos m < 2 ^ 53
    ∧ ex + Z.pos (digits2_pos mx) - 53 ≤ e ≤ ex + Z.pos (digits2_pos mx) - 52
    ∧ 2 * Z.abs (Z.pos m * 2 ^ (e - ex) * b - a)
      ≤ 2 ^ (Z.pos (digits2_pos mx) - 53) * b.
Proof.
  intros Hb Hloc Hd Hlo Hhi.
  pose proof (digits2_bounds mx) as [Hdlo Hdhi].
  destruct (shr_fexp_spec mx ex lx a b Hb Hloc) as (mrs & E1 & L1 & M1); [lia|lia|].
  remember (Z.pos (digits2_pos mx)) as d eqn:Ed. remember (d - 53) as n eqn:En.
  assert (Hn : 0 ≤ n) by lia.
  assert (Hpn : 0 < 2 ^ n) by (apply Z.pow_pos_nonneg; lia).
  assert (Hm1 : 2 ^ 52 ≤ shr_m mrs < 2 ^ 53).
  { rewrite M1. replace (d - 1) with (52 + n) in Hdlo by lia.
    replace (2 ^ d) with (2 ^ (53 + n)) in Hdhi by (f_equal; lia).
    rewrite Z.pow_add_r in Hdlo, Hdhi by lia. split.
    - apply Z.div_le_lower_bound; lia.
    - apply Z.div_lt_upper_bound; lia. }
  assert (HB : 0 < 2 ^ n * b) by (apply Z.mul_pos_pos; lia).
  destruct (round_nearest_even_located _ _ _ _ HB L1) as [R1 R2].
  set (m1 := round_nearest_even (shr_m mrs) (loc_of_shr_record mrs)) in *.
  unfold binary_round_aux. rewrite E1. fold m1.
  destruct m1 as [|p1|p1] eqn:Ep1; [lia| |lia].
  destruct (decide (Z.pos p1 < 2 ^ 53)) as [Hlt|Hge].
  - assert (D1 : Z.pos (digits2_pos p1) = 53) by (apply digits2_unique; simpl; lia).
    destruct (shr_fexp_spec p1 (ex + n) loc_Exact (Z.pos p1) 1) as (mrs2 & E2 & _ & M2);
      [lia|simpl; lia|lia|lia|].
    rewrite D1 in E2, M2. change (53 - 53) with 0 in E2, M2.
    change (2 ^ 0) with 1 in M2. rewrite Z.div_1_r in M2. rewrite Z.add_0_r in E2.
    rewrite E2, M2.
    assert (Hle : (ex + n <=? emax - prec) = true)
      by (apply Z.leb_le; unfold emax, prec; lia).
    rewrite Hle. exists p1, (ex + n). split; [done|]. split; [lia|].
    split; [lia|]. replace (ex + n - ex) with n by lia.
    replace (Z.pos p1 * 2 ^ n * b) with (Z.pos p1 * (2 ^ n * b)) by ring. exact R2.
  - assert (Ep : Z.pos p1 = 2 ^ 53) by lia.
    assert (D1 : Z.pos (digits2_pos p1) = 54) by (apply digits2_unique; simpl; lia).
    destruct (shr_fexp_spec p1 (ex + n) loc_Exact (Z.pos p1) 1) as (mrs2 & E2 & _ & M2);
      [lia|simpl; lia|lia|lia|].
    rewrite D1 in E2, M2. change (54 - 53) with 1 in E2, M2.
    rewrite Ep in M2. change (2 ^ 53 / 2 ^ 1) with (Z.pos (2 ^ 52)) in M2.
    rewrite E2, M2.
    assert (Hle : (ex + n + 1 <=? emax - prec) = true)
      by (apply Z.leb_le; unfold emax, prec; lia).
    rewrite Hle. exists (2 ^ 52)%positive, (ex + n + 1). split; [done|].
    split; [simpl; lia|]. split; [lia|].
    replace (ex + n + 1 - ex) with (n + 1) by lia.
    rewrite Z.pow_add_r by lia. change (2 ^ 1) with 2.
    replace (Z.pos (2 ^ 52) * (2 ^ n * 2) * b) with (Z.pos p1 * (2 ^ n * b))
      by (rewrite Ep; change (Z.pos (2 ^ 52)) with (2 ^ 52); change (2 ^ 53) with (2 ^ 52 * 2); ring).
    exact R2.
Qed.

Lemma pow2_pos n : 0 ≤ n → 0 < 2 ^ n.
Proof. intros. apply Z.pow_pos_nonneg; lia. Qed.

Lemma pow2_split a b c : 0 ≤ b → 0 ≤ c → a = b + c → 2 ^ a = 2 ^ b * 2 ^ c.
Proof. intros ?? ->. by apply Z.pow_add_r. Qed.

Lemma digits2_gt p k : 2 ^ k ≤ Z.pos p → k < Z.pos (digits2_pos p).
Proof.
  intros H. pose proof (digits2_bounds p) as [_ Hhi].
  apply (Z.pow_lt_mono_r_iff 2); lia.
Qed.

Lemma digits2_le p k : Z.pos p < 2 ^ k → Z.pos (digits2_pos p) ≤ k.
Proof.
  intros H. pose proof (digits2_bounds p) as [Hlo _].
  destruct (Z.lt_trichotomy k 0) as [?|[->|?]].
  - rewrite Z.pow_neg_r in H by done. lia.
  - simpl in H. lia.
  - enough (Z.pos (digits2_pos p) - 1 < k) by lia.
    apply (Z.pow_lt_mono_r_iff 2); lia.
Qed.

Lemma abs_scale A B C W :
  0 ≤ W → 2 * Z.abs (A - B) ≤ C → 2 * Z.abs (A * W - B * W) ≤ C * W.
Proof.
  intros HW H. replace (A * W - B * W) with ((A - B) * W) by ring.
  rewrite Z.abs_mul, (Z.abs_eq W) by done. nia.
Qed.

(** A finite binary64 value of that mantissa and exponent is a valid
    representation. *)
Lemma valid_binary_normal s m e :
  2 ^ 52 ≤ Z.pos m < 2 ^ 53 → -1074 ≤ e ≤ 971 →
  valid_binary (S754_finite s m e) = true.
Proof.
  intros Hm He. unfold SpecFloat.valid_binary, bounded, canonical_mantissa, fexp, emin, prec, emax.
  rewrite (digits2_unique m 53) by (simpl; lia).
  apply andb_true_iff. split; [apply Z.eqb_eq|apply Z.leb_le]; lia.
Qed.

Lemma scaled_bounds m e :
  2 ^ 52 ≤ Z.pos m < 2 ^ 53 → -52 ≤ e ≤ 0 →
  2 ^ (e + 105) ≤ scaled m e < 2 ^ (e + 106).
Proof.
  intros Hm He. unfold scaled.
  rewrite (pow2_split (e + 105) 52 (e + 53)), (pow2_split (e + 106) 53 (e + 53)) by lia.
  pose proof (pow2_pos (e + 53) ltac:(lia)). nia.
Qed.

(** The product of two such values, when below [2 ^ c]: the nearest
    binary64 value, at most [2 ^ (c - 54)] away. *)
Lemma mul_normal x y mx ex my ey c :
  normal x mx ex → normal y my ey → 0 ≤ c ≤ 52 →
  scaled mx ex * scaled my ey < 2 ^ (c + 106) →
  ∃ m e,
    normal (x * y) m e
    ∧ 2 * Z.abs (scaled m e * 2 ^ 53 - scaled mx ex * scaled my ey) ≤ 2 ^ (c + 53)
    ∧ (2 ^ (c + 105) ≤ scaled mx ex * scaled my ey → c - 53 ≤ e).
Proof.
  intros (Ex & Hmx & Hex) (Ey & Hmy & Hey) Hc Hlt.
  assert (HW : 0 < 2 ^ (ex + ey + 106)) by (apply pow2_pos; lia).
  assert (ES : scaled mx ex * scaled my ey = Z.pos (mx * my) * 2 ^ (ex + ey + 106)).
  { unfold scaled. rewrite (pow2_split (ex + ey + 106) (ex + 53) (ey + 53)) by lia.
    rewrite Pos2Z.inj_mul. ring. }
  rewrite ES in *.
  assert (Hprod : 2 ^ 104 ≤ Z.pos (mx * my)).
  { rewrite Pos2Z.inj_mul. change (2 ^ 104) with (2 ^ 52 * 2 ^ 52). nia. }
  assert (Hbound : Z.pos (mx * my) < 2 ^ (c - ex - ey)).
  { rewrite (pow2_split (c + 106) (c - ex - ey) (ex + ey + 106)) in Hlt by lia.
    pose proof (pow2_pos (c - ex - ey) ltac:(lia)). nia. }
  pose proof (digits2_gt _ _ Hprod) as Hd1.
  pose proof (digits2_le _ _ Hbound) as Hd2.
  destruct (binary_round_aux_spec false (mx * my) (ex + ey) loc_Exact (Z.pos (mx * my)) 1)
    as (m & e & Er & Hm & He & Herr); [lia|simpl; lia|lia|lia|lia|].
  remember (Z.pos (digits2_pos (mx * my))) as d eqn:Ed.
  exists m, e. split; [|split].
  - split; [|split; [done|lia]].
    rewrite mul_spec, Ex, Ey. exact Er.
  - apply (abs_scale _ _ _ (2 ^ (ex + ey + 106))) in Herr; [|lia].
    assert (Hpow : 2 ^ (d - 53) * 1 * 2 ^ (ex + ey + 106) ≤ 2 ^ (c + 53)).
    { rewrite Z.mul_1_r, <- Z.pow_add_r by lia. apply Z.pow_le_mono_r; lia. }
    replace (scaled m e * 2 ^ 53) with (Z.pos m * 2 ^ (e - (ex + ey)) * 1 * 2 ^ (ex + ey + 106)).
    + lia.
    + unfold scaled. rewrite Z.mul_1_r, <- !Z.mul_assoc, <- !Z.pow_add_r by lia.
      do 2 f_equal. lia.
  - intros Hge. enough (c - 1 - ex - ey < d) by lia.
    rewrite Ed. apply digits2_gt.
    rewrite (pow2_split (c + 105) (c - 1 - ex - ey) (ex + ey + 106)) in Hge by lia.
    pose proof (pow2_pos (c - 1 - ex - ey) ltac:(lia)). nia.
Qed.

Lemma iter_xO_spec p k : Z.pos (Pos.iter xO p k) = Z.pos p * 2 ^ Z.pos k.
Proof.
  induction k as [|k IH] using Pos.peano_ind.
  - simpl. lia.
  - rewrite Pos.iter_succ, Pos2Z.inj_succ, Z.pow_succ_r, Pos2Z.inj_xO, IH by lia. ring.
Qed.

(** An integer below [2 ^ 53] is a binary64 value. *)
Lemma Z2float_normal s :
  1 ≤ s < 2 ^ 53 →
  ∃ m e, normal (Z2float s) m e ∧ scaled m e = s * 2 ^ 53.
Proof.
  intros Hs. destruct s as [|p|p]; [lia| |lia].
  pose proof (digits2_bounds p) as [Hlo Hhi].
  pose proof (digits2_le p 53 ltac:(lia)) as Hd.
  remember (Z.pos (digits2_pos p)) as d eqn:Ed.
  assert (Hd0 : 0 < d) by lia.
  assert (Hal : ∃ mz, shl_align p 0 (fexp prec emax (d + 0)) = (mz, d - 53)
                      ∧ Z.pos mz = Z.pos p * 2 ^ (53 - d)).
  { unfold shl_align, fexp, emin, prec, emax. rewrite Z.max_l by lia.
    replace (d + 0 - 53) with (d - 53) by lia. rewrite Z.sub_0_r.
    destruct (d - 53) as [|k|k] eqn:Ek; [|lia|].
    - exists p. replace d with 53 by lia. simpl. split; [done|lia].
    - exists (Pos.iter xO p k). split; [done|].
      rewrite iter_xO_spec. do 2 f_equal. lia. }
  destruct Hal as (mz & Eal & Emz).
  assert (Hmz : 2 ^ 52 ≤ Z.pos mz < 2 ^ 53).
  { rewrite Emz. rewrite (pow2_split 52 (d - 1) (53 - d)), (pow2_split 53 d (53 - d)) by lia.
    pose proof (pow2_pos (53 - d) ltac:(lia)). nia. }
  assert (Dmz : Z.pos (digits2_pos mz) = 53) by (by apply digits2_unique).
  destruct (binary_round_aux_spec false mz (d - 53) loc_Exact (Z.pos mz) 1)
    as (m & e & Er & Hm & He & Herr); [lia|simpl; lia|lia|lia|lia|].
  rewrite Dmz in He, Herr. change (2 ^ (53 - 53)) with 1 in Herr.
  assert (Ee : e = d - 53).
  { destruct (decide (e = d - 53)) as [|Hne]; [done|].
    replace (e - (d - 53)) with 1 in Herr by lia. change (2 ^ 1) with 2 in Herr. lia. }
  subst e. replace (d - 53 - (d - 53)) with 0 in Herr by lia.
  change (2 ^ 0) with 1 in Herr.
  assert (Em : Z.pos m = Z.pos mz) by lia.
  exists m, (d - 53). split.
  - split; [|split; [done|lia]].
    unfold Z2float, binary_normalize, binary_round. rewrite <- Ed, Eal, Er.
    apply Prim2SF_SF2Prim, valid_binary_normal; [done|lia].
  - unfold scaled. rewrite Em, Emz, <- Z.mul_assoc, <- Z.pow_add_r by lia.
    do 2 f_equal. lia.
Qed.

Lemma close_multiples_equal A B K :
  0 < K → 2 * Z.abs (A * K - B * K) ≤ K → A = B.
Proof.
  intros HK H. replace (A * K - B * K) with ((A - B) * K) in H by ring.
  rewrite Z.abs_mul, (Z.abs_eq K) in H by lia.
  destruct (decide (A = B)) as [|Hne]; [done|].
  assert (1 ≤ Z.abs (A - B)) by lia. nia.
Qed.

Lemma normal_1_5 : normal 1.5 (3 * 2 ^ 51) (-52).
Proof. split; [reflexivity|]. split; [simpl; lia|lia]. Qed.

(** [stars * 1.5] is exact. *)
Lemma times_1_5_exact s :
  1 ≤ s → 3 * s < 2 ^ 53 →
  ∃ m e, normal (Z2float s * 1.5) m e ∧ scaled m e = 3 * s * 2 ^ 52.
Proof.
  intros Hs Hs3.
  destruct (Z2float_normal s ltac:(lia)) as (m0 & e0 & N0 & S0).
  assert (E3 : ∃ p, 3 * s = Z.pos p) by (destruct s; try lia; by eexists).
  destruct E3 as [p Ep].
  pose proof (digits2_bounds p) as [Hlo Hhi].
  pose proof (digits2_le p 53 ltac:(lia)) as Hd.
  remember (Z.pos (digits2_pos p) - 1) as c eqn:Ec.
  assert (Ed : Z.pos (digits2_pos p) = c + 1) by lia.
  rewrite Ed in Hhi, Hd.
  assert (Hc : 0 ≤ c ≤ 52) by lia.
  assert (ES : scaled m0 e0 * scaled (3 * 2 ^ 51) (-52) = Z.pos p * 2 ^ 105).
  { rewrite S0, <- Ep. unfold scaled. simpl. lia. }
  destruct (mul_normal _ _ _ _ _ _ c N0 normal_1_5 Hc) as (m & e & N & Herr & He).
  { rewrite ES, (pow2_split (c + 106) (c + 1) 105) by lia. lia. }
  rewrite ES in Herr, He.
  assert (Hec : c - 53 ≤ e).
  { apply He. rewrite (pow2_split (c + 105) c 105) by lia. lia. }
  exists m, e. split; [done|]. rewrite Ep.
  destruct N as (_ & Hm & Hme).
  pose proof (pow2_pos c ltac:(lia)) as HP.
  assert (EA : scaled m e = Z.pos m * 2 ^ (e + 53 - c) * 2 ^ c).
  { unfold scaled. rewrite <- Z.mul_assoc, <- Z.pow_add_r by lia. do 2 f_equal. lia. }
  assert (EB : Z.pos p * 2 ^ 52 = Z.pos p * 2 ^ (52 - c) * 2 ^ c).
  { rewrite <- Z.mul_assoc, <- Z.pow_add_r by lia. do 2 f_equal. lia. }
  rewrite EA, EB. f_equal.
  apply (close_multiples_equal _ _ (2 ^ c * 2 ^ 53)); [lia|].
  rewrite <- (pow2_split (c + 53) c 53) by lia.
  rewrite (pow2_split (c + 53) c 53) at 1 2 by lia.
  replace (Z.pos m * 2 ^ (e + 53 - c) * (2 ^ c * 2 ^ 53))
    with (scaled m e * 2 ^ 53) by (rewrite EA; ring).
  replace (Z.pos p * 2 ^ (52 - c) * (2 ^ c * 2 ^ 53)) with (Z.pos p * 2 ^ 105); [done|].
  change (2 ^ 105) with (2 ^ 52 * 2 ^ 53). rewrite Z.mul_assoc, EB. ring.
Qed.

Lemma normal_lit_1_04 : normal lit_1_04 4683743612465316 (-52).
Proof. split; [reflexivity|]. split; [simpl; lia|lia]. Qed.

Lemma normal_100 : normal 100 (25 * 2 ^ 48) (-46).
Proof. split; [reflexivity|]. split; [simpl; lia|lia]. Qed.

(** Rounding half up of [v / P], read off at the scale [2 ^ 53]. *)
Lemma round_half_up_unique v P U q :
  0 < P → 0 < U → P * U = 2 ^ 53 →
  q * 2 ^ 54 ≤ 2 * (v * U) + 2 ^ 53 < (q + 1) * 2 ^ 54 →
  (2 * v + P) / (2 * P) = q.
Proof.
  intros HP HU HPU [Hlo Hhi]. symmetry.
  apply (Z.div_unique _ _ _ (2 * v + P - 2 * P * q)); [|ring]. left.
  change (2 ^ 54) with (2 * 2 ^ 53) in Hlo, Hhi. rewrite <- HPU in Hlo, Hhi. split.
  - apply (Z.mul_le_mono_pos_r _ _ U); [done|]. lia.
  - apply (Z.mul_lt_mono_pos_r U); [done|]. lia.
Qed.

(** The exponent of a value below [2 ^ c]. *)
Lemma scaled_exponent m e c :
  2 ^ 52 ≤ Z.pos m < 2 ^ 53 → -52 ≤ e ≤ 0 → 0 ≤ c →
  scaled m e < 2 ^ (c + 53) → e < c - 52.
Proof.
  intros Hm He Hc Hlt. pose proof (scaled_bounds m e Hm He) as [Hlo _].
  enough (e + 105 < c + 53) by lia.
  apply (Z.pow_lt_mono_r_iff 2); lia.
Qed.

(** The product [stars * 1.5 * 1.04] as the machine computes it, up to
    the last number of stars whose price is below [2 ^ 45]: at most
    [2 ^ -9] away from [stars * 3 * L / 2 ^ 53], where [L] is the mantissa
    of the literal [1.04]. *)
Lemma product_normal s :
  1 ≤ s ≤ 22554084672328 →
  ∃ m e,
    normal (Z2float s * 1.5 * lit_1_04) m e
    ∧ Z.abs (scaled m e - 3 * s * 4683743612465316) ≤ 2 ^ 44.
Proof.
  intros Hs.
  destruct (times_1_5_exact s) as (m1 & e1 & N1 & S1); [lia|simpl; lia|].
  assert (S2 : scaled 4683743612465316 (-52) = 2 * 4683743612465316) by reflexivity.
  destruct (mul_normal _ _ _ _ _ _ 45 N1 normal_lit_1_04) as (m & e & N & Herr & _);
    [lia|rewrite S1, S2; simpl; lia|].
  exists m, e. split; [done|]. rewrite S1, S2 in Herr.
  change (2 ^ (45 + 53)) with (2 ^ 45 * 2 ^ 53) in Herr.
  change (2 ^ 52) with 4503599627370496 in Herr.
  change (2 ^ 53) with 9007199254740992 in Herr.
  change (2 ^ 45) with 35184372088832 in Herr.
  change (2 ^ 44) with 17592186044416. lia.
Qed.

(** For those numbers of stars [toFixed(2)] prints [156 * stars]
    hundredths. *)
Lemma calculateRubles_small s :
  1 ≤ s ≤ 22554084672328 →
  calculateRubles s = Number_of_hundredths false (156 * s).
Proof.
  intros Hs. destruct (product_normal s Hs) as (m & e & (E & Hm & He) & Herr).
  assert (Hlt : e < 46 - 52).
  { apply (scaled_exponent m); [done|done|lia|].
    change (2 ^ (46 + 53)) with 633825300114114700748351602688.
    change (2 ^ 44) with 17592186044416 in Herr. lia. }
  unfold calculateRubles, toFixed2. rewrite E.
  destruct e as [|e|k]; [lia|lia|].
  cbv iota. rewrite (Z.pow_neg_r 2 (Z.neg k)), Z.mul_0_r by lia.
  change (10 ^ 21 <=? 0) with false. cbv iota.
  f_equal. unfold nearest_hundredths.
  apply (round_half_up_unique _ _ (2 ^ (Z.neg k + 53))).
  - apply pow2_pos. lia.
  - apply pow2_pos. lia.
  - rewrite <- Z.pow_add_r by lia. f_equal. lia.
  - unfold scaled in Herr.
    replace (Z.pos m * 100 * 2 ^ (Z.neg k + 53)) with (100 * (Z.pos m * 2 ^ (Z.neg k + 53)))
      by ring.
    change (2 ^ 54) with 18014398509481984.
    change (2 ^ 53) with 9007199254740992.
    change (2 ^ 44) with 17592186044416 in Herr. lia.
Qed.

Lemma new_location_100 q r m' :
  m' = 100 * q + r → 0 ≤ r < 100 →
  located q (new_location 100 r) m' 100.
Proof.
  intros -> Hr. unfold new_location. change (Z.even 100) with true. cbv iota.
  unfold new_location_even. destruct (Z.eqb_spec r 0) as [->|Hne]; [simpl; lia|].
  destruct (Z.compare_spec (2 * r) 100); simpl; lia.
Qed.

(** The quotient and the location that the division by 100 hands to the
    rounding. *)
Lemma SFdiv_core_binary_100 p :
  7 ≤ Z.pos (digits2_pos p) ≤ 59 →
  SFdiv_core_binary prec emax (Z.pos p) 0 100 0
  = (Z.pos p * 2 ^ (60 - Z.pos (digits2_pos p)) / 100,
     Z.pos (digits2_pos p) - 60,
     new_location 100 ((Z.pos p * 2 ^ (60 - Z.pos (digits2_pos p))) mod 100)).
Proof.
  intros Hd. unfold SFdiv_core_binary, fexp, emin, prec, emax.
  change (Zdigits2 (Z.pos p)) with (Z.pos (digits2_pos p)).
  change (Zdigits2 100) with 7.
  remember (Z.pos (digits2_pos p)) as d eqn:Ed.
  replace (d + 0 - (7 + 0) - 53) with (d - 60) by lia.
  rewrite Z.max_l, Z.min_l by lia.
  replace (0 - 0 - (d - 60)) with (60 - d) by lia.
  destruct (60 - d) as [|k|k] eqn:Ek; [lia| |lia].
  rewrite Z.shiftl_mul_pow2 by lia.
  unfold Z.div, Z.modulo.
  by destruct (Z.div_eucl (Z.pos p * 2 ^ Z.pos k) 100).
Qed.

(** The binary64 value nearest to [n / 100], when that is at least 1 and
    below [2 ^ c]: at most [2 ^ (c - 54)] away. *)
Lemma Number_of_hundredths_normal p c :
  100 ≤ Z.pos p < 100 * 2 ^ c → 1 ≤ c ≤ 52 →
  ∃ m e,
    normal (Number_of_hundredths false (Z.pos p)) m e
    ∧ 2 * Z.abs (scaled m e * 100 - Z.pos p * 2 ^ 53) ≤ 2 ^ c * 100.
Proof.
  intros Hp Hc.
  pose proof (digits2_bounds p) as [Hdlo Hdhi].
  pose proof (digits2_gt p 6 ltac:(simpl; lia)) as Hd7.
  assert (Hd59 : Z.pos (digits2_pos p) ≤ 59).
  { apply digits2_le. assert (2 ^ c ≤ 2 ^ 52) by (apply Z.pow_le_mono_r; lia).
    change (2 ^ 59) with (128 * 2 ^ 52). lia. }
  unfold Number_of_hundredths, SFdiv. rewrite SFdiv_core_binary_100 by lia.
  remember (Z.pos (digits2_pos p)) as d eqn:Ed.
  remember (Z.pos p * 2 ^ (60 - d)) as m' eqn:Em'.
  pose proof (pow2_pos (60 - d) ltac:(lia)) as HP.
  assert (Hm' : 2 ^ 59 ≤ m' < 2 ^ 60).
  { rewrite Em', (pow2_split 59 (d - 1) (60 - d)), (pow2_split 60 d (60 - d)) by lia. nia. }
  pose proof (Z.div_mod m' 100 ltac:(lia)) as Hdm.
  pose proof (Z.mod_pos_bound m' 100 ltac:(lia)) as Hr.
  remember (m' / 100) as q eqn:Eq. remember (m' mod 100) as r eqn:Er.
  assert (Hq : 2 ^ 52 ≤ q < 2 ^ 54).
  { change (2 ^ 59) with (128 * 2 ^ 52) in Hm'. change (2 ^ 60) with (64 * 2 ^ 54) in Hm'.
    lia. }
  destruct q as [|pq|pq]; [lia| |lia].
  pose proof (digits2_gt pq 52 ltac:(lia)) as Hdq1.
  pose proof (digits2_le pq 54 ltac:(lia)) as Hdq2.
  assert (Hqlo : 2 ^ (60 - d) ≤ Z.pos pq) by nia.
  assert (Hqhi : Z.pos pq < 2 ^ (c + 60 - d)).
  { rewrite (pow2_split (c + 60 - d) c (60 - d)) by lia. nia. }
  pose proof (digits2_gt pq _ Hqlo) as Hdq3.
  pose proof (digits2_le pq _ Hqhi) as Hdq4.
  destruct (binary_round_aux_spec false pq (d - 60) (new_location 100 r) m' 100)
    as (m & e & Erd & Hm & He & Herr);
    [lia|by apply new_location_100|lia|lia|lia|].
  remember (Z.pos (digits2_pos pq)) as dq eqn:Edq.
  simpl xorb. rewrite Erd. exists m, e. split.
  - split; [|split; [done|lia]].
    apply Prim2SF_SF2Prim, valid_binary_normal; [done|lia].
  - apply (abs_scale _ _ _ (2 ^ (d - 7))) in Herr; [|apply Z.lt_le_incl, pow2_pos; lia].
    assert (Hpow : 2 ^ (dq - 53) * 100 * 2 ^ (d - 7) ≤ 2 ^ c * 100).
    { replace (2 ^ (dq - 53) * 100 * 2 ^ (d - 7)) with (2 ^ (dq - 53) * 2 ^ (d - 7) * 100)
        by ring.
      rewrite <- Z.pow_add_r by lia.
      assert (2 ^ (dq - 53 + (d - 7)) ≤ 2 ^ c) by (apply Z.pow_le_mono_r; lia). lia. }
    replace (scaled m e * 100) with (Z.pos m * 2 ^ (e - (d - 60)) * 100 * 2 ^ (d - 7)).
    + replace (Z.pos p * 2 ^ 53) with (m' * 2 ^ (d - 7)); [lia|].
      rewrite Em', <- Z.mul_assoc, <- Z.pow_add_r by lia. do 2 f_equal. lia.
    + unfold scaled.
      replace (Z.pos m * 2 ^ (e - (d - 60)) * 100 * 2 ^ (d - 7))
        with (Z.pos m * (2 ^ (e - (d - 60)) * 2 ^ (d - 7)) * 100) by ring.
      rewrite <- Z.pow_add_r by lia. do 3 f_equal. lia.
Qed.

(** For those numbers of stars [Math.round(rub * 100)] is [156 * stars]. *)
Lemma amountKopecks_small s :
  1 ≤ s ≤ 22554084672328 →
  amountKopecks s = Z2float (156 * s).
Proof.
  intros Hs. unfold amountKopecks. rewrite (calculateRubles_small s Hs).
  assert (EN : ∃ p, 156 * s = Z.pos p) by (destruct s; try lia; by eexists).
  destruct EN as [p Ep]. rewrite Ep.
  destruct (Number_of_hundredths_normal p 45) as (mr & er & Nr & Hr);
    [change (2 ^ 45) with 35184372088832; lia|lia|].
  change (2 ^ 45) with 35184372088832 in Hr. change (2 ^ 53) with 9007199254740992 in Hr.
  assert (S100 : scaled (25 * 2 ^ 48) (-46) = 100 * 9007199254740992) by reflexivity.
  destruct (mul_normal _ _ _ _ _ _ 52 Nr normal_100) as (m & e & (E & Hm & He) & Herr & _);
    [lia|rewrite S100; change (2 ^ (52 + 106)) with (2 ^ 105 * 9007199254740992);
         change (2 ^ 105) with 40564819207303340847894502572032; lia|].
  rewrite S100 in Herr.
  change (2 ^ (52 + 53)) with (4503599627370496 * 9007199254740992) in Herr.
  change (2 ^ 53) with 9007199254740992 in Herr.
  assert (Hy : Z.abs (scaled m e - Z.pos p * 9007199254740992) < 4503599627370496) by lia.
  assert (Hlt : e < 52 - 52).
  { apply (scaled_exponent m); [done|done|lia|].
    change (2 ^ (52 + 53)) with 40564819207303340847894502572032. lia. }
  unfold Math_round. rewrite E.
  destruct e as [|e|k]; [lia|lia|]. cbv iota.
  assert (Er : (2 * Z.pos m + 2 ^ Z.pos k) / (2 * 2 ^ Z.pos k) = Z.pos p).
  { apply (round_half_up_unique _ _ (2 ^ (Z.neg k + 53))).
    - apply pow2_pos. lia.
    - apply pow2_pos. lia.
    - rewrite <- Z.pow_add_r by lia. f_equal. lia.
    - unfold scaled in Hy.
      change (2 ^ 54) with 18014398509481984.
      change (2 ^ 53) with 9007199254740992. lia. }
  cbv zeta. rewrite Er. reflexivity.
Qed.

(** Above that, the price is [2 ^ 45] or more and the bounds no longer
    suffice; the numbers of stars up to the first deviation are few. *)
Lemma rubles_exact_above :
  holds_from 23 22554084672329 rubles_exact = true.
Proof. vm_compute. reflexivity. Qed.

Lemma prices_exact_above :
  holds_from 10 22554084672329 price_exact = true.
Proof. vm_compute. reflexivity. Qed.

(** Counterexample to C8 as stated.  Non-positive input is not rejected:
    [-1] star costs [-1.56] and [0] stars cost [0].  And the amounts are
    computed in binary64.  From 22554084672329 stars on the price
    [stars * 1.56] is [2 ^ 45] or more, where a binary64 value is [2 ^ -7]
    away from the next one.  At 22554084672339 stars the price is still the
    value nearest to [stars * 1.56], but [Math.round(rub * 100)] is one
    minor unit above [156 * stars].  At 22554084672352 stars, and again at
    35184372088846 stars, [calculateRubles] itself returns one hundredth
    more than [stars * 1.56]. *)
Lemma calculateRubles_differs_from_price :
  price (-1) = None
  ∧ calculateRubles (-1) = Number_of_hundredths true 156
  ∧ price 0 = None
  ∧ calculateRubles 0 = PrimFloat.zero
  ∧ price 22554084672339 = Some (calculateRubles 22554084672339)
  ∧ amountKopecks 22554084672339 = Z2float (156 * 22554084672339 + 1)
  ∧ Z2float (156 * 22554084672339 + 1) ≠ Z2float (156 * 22554084672339)
  ∧ price 22554084672352 = Some (Number_of_hundredths false (156 * 22554084672352))
  ∧ calculateRubles 22554084672352
    = Number_of_hundredths false (156 * 22554084672352 + 1)
  ∧ Number_of_hundredths false (156 * 22554084672352 + 1)
    ≠ Number_of_hundredths false (156 * 22554084672352)
  ∧ price 35184372088846 = Some (Number_of_hundredths false 5488762045859976)
  ∧ calculateRubles 35184372088846 = Number_of_hundredths false 5488762045859977
  ∧ Number_of_hundredths false 5488762045859977
    ≠ Number_of_hundredths false 5488762045859976
  ∧ amountKopecks 35184372088846 = Z2float 5488762045859977
  ∧ Z2float 5488762045859977 ≠ Z2float (156 * 35184372088846).
Proof.
  repeat split; try (vm_compute; reflexivity);
    intros H; apply (f_equal Prim2SF) in H; vm_compute in H; discriminate.
Qed.

(** C8, amended.  For every whole number of stars from 1 to
    22554084672351, which is every positive number below the least one at
    which the price deviates, [calculateRubles] returns
    [stars * 1.5 * 1.04] rounded to two decimal places, as the
    specification prices it (the binary64 value nearest to [156 * stars]
    hundredths).  The amount of the invoice that [purchase] builds is
    [Math.round] of a hundred times the price, and up to 22554084672338
    stars, every positive number below the least one at which it deviates,
    that is [156 * stars] minor units.
    Nothing is rejected: zero stars cost 0 and -1 star costs -1.56. *)
Theorem calculateRubles_exact stars :
  1 ≤ stars ≤ 22554084672351 →
  Some (calculateRubles stars) = price stars
  ∧ (∀ env buyerId giftId gift,
       Gift.stars gift = stars →
       Invoice.price_amount (build_invoice env buyerId giftId gift)
       = amountKopecks stars)
  ∧ (stars ≤ 22554084672338 → amountKopecks stars = Z2float (156 * stars))
  ∧ calculateRubles 0 = PrimFloat.zero
  ∧ calculateRubles (-1) = Number_of_hundredths true 156.
Proof.
  intros Hrange.
  assert (Hrub : calculateRubles stars = Number_of_hundredths false (156 * stars)).
  { destruct (decide (stars ≤ 22554084672328)) as [Hsmall|Hlarge].
    - apply calculateRubles_small. lia.
    - apply FloatAxioms.Leibniz.eqb_spec, (holds_from_spec _ _ _ rubles_exact_above).
      simpl. lia. }
  split; [|split; [by intros env buyerId giftId gift <-|
                   split; [|split; vm_compute; reflexivity]]].
  - unfold price. rewrite Hrub. by destruct (Z.leb_spec stars 0); [lia|].
  - intros Hkop. destruct (decide (stars ≤ 22554084672328)) as [Hsmall|Hlarge].
    + apply amountKopecks_small. lia.
    + apply price_exact_spec, (holds_from_spec _ _ _ prices_exact_above). simpl. lia.
Qed.

(** The values the specification names: [price(1) = 1.56],
    [price(100) = 156.00], and 1560 minor units for 10 stars; and the last
    numbers of stars of the two ranges. *)
Lemma calculateRubles_named_values :
  (1 ≤ 1 ≤ 22554084672351 ∧ 1 ≤ 100 ≤ 22554084672351 ∧ 1 ≤ 10 ≤ 22554084672351
   ∧ 1 ≤ 22554084672338 ≤ 22554084672351 ∧ 1 ≤ 22554084672351 ≤ 22554084672351)
  ∧ Some (calculateRubles 1) = Some 1.56%float
  ∧ Some (calculateRubles 100) = Some 156%float
  ∧ Some (calculateRubles 10) = Some 15.6%float
  ∧ amountKopecks 10 = 1560%float
  ∧ amountKopecks 22554084672338 = 3518437208884728%float
  ∧ Some (calculateRubles 22554084672351) = Some 35184372088867.56%float.
Proof.
  split; [lia|].
  pose proof (calculateRubles_exact 1 ltac:(lia)) as (H1 & _).
  pose proof (calculateRubles_exact 100 ltac:(lia)) as (H100 & _).
  pose proof (calculateRubles_exact 10 ltac:(lia)) as (H10 & _ & K10 & _).
  pose proof (calculateRubles_exact 22554084672338 ltac:(lia)) as (_ & _ & K338 & _).
  pose proof (calculateRubles_exact 22554084672351 ltac:(lia)) as (H351 & _).
  rewrite H1, H100, H10, (K10 ltac:(lia)), (K338 ltac:(lia)), H351.
  repeat split; vm_compute; reflexivity.
Defined.

(** * Further properties of the server *)

(** ** Strings *)

Lemma split_absent sep s : occurs sep s = false → split sep s = [s].
Proof.
  induction s as [|c s IH]; simpl; [done|].
  intros H. apply orb_false_iff in H as [Hc Hs].
  rewrite Hc, (IH Hs). reflexivity.
Qed.

Lemma split_first sep a b :
  occurs sep a = false →
  split sep (a +:+ String sep b) = a :: split sep b.
Proof.
  induction a as [|c a IH]; simpl.
  - intros _. by rewrite Ascii.eqb_refl.
  - intros H. apply orb_false_iff in H as [Hc Ha].
    rewrite Hc, (IH Ha). reflexivity.
Qed.

Lemma occurs_app c a b : occurs c (a +:+ b) = occurs c a || occurs c b.
Proof. induction a as [|c' a IH]; simpl; [done|]. by rewrite IH, orb_assoc. Qed.

Lemma occurs_pretty_N_go c x s :
  (∀ d, (d < 10)%N → pretty_N_char d ≠ c) →
  occurs c s = false → occurs c (pretty_N_go x s) = false.
Proof.
  intros Hc. revert s. induction (N.lt_wf_0 x) as [x _ IH]; intros s Hs.
  destruct (decide (x = 0)%N) as [->|Hx]; [by rewrite pretty_N_go_0|].
  rewrite pretty_N_go_step by lia. apply IH.
  - apply N.div_lt; lia.
  - simpl. rewrite Hs, orb_false_r. apply Ascii.eqb_neq, Hc.
    apply N.mod_lt. lia.
Qed.

Lemma pretty_N_char_colon d : (d < 10)%N → pretty_N_char d ≠ ":"%char.
Proof.
  intros Hd.
  assert (d = 0 ∨ d = 1 ∨ d = 2 ∨ d = 3 ∨ d = 4 ∨ d = 5 ∨ d = 6 ∨ d = 7 ∨ d = 8
          ∨ d = 9)%N as H by lia.
  repeat destruct H as [->|H]; try subst d; done.
Qed.

Lemma occurs_colon_pretty (ms : N) : occurs ":" (pretty ms) = false.
Proof.
  unfold pretty, pretty_N. destruct (decide (ms = 0)%N); [done|].
  apply occurs_pretty_N_go; [apply pretty_N_char_colon|done].
Qed.


(** ** The payload of an invoice, read back *)

Lemma split_payload giftId buyerId :
  occurs ":" giftId = false → occurs ":" buyerId = false →
  split ":" (giftId +:+ ":" +:+ buyerId) = [giftId; buyerId].
Proof.
  intros Hg Hb. change (":" +:+ buyerId)%string with (String ":" buyerId).
  rewrite (split_first _ _ _ Hg), (split_absent _ _ Hb). reflexivity.
Qed.

(** X1. The payload that [purchase] puts into an invoice (line 186,
    [`${giftId}:${buyerId}`]) is read back by the webhook (line 219,
    [payload.split(':')]) as the same [giftId] and [buyerId], provided that
    neither of them contains a colon. *)
Theorem invoice_payload_round_trip env buyerId giftId gift update :
  occurs ":" giftId = false →
  occurs ":" buyerId = false →
  has_successful_payment update = true →
  nullish (message_chat update) = false →
  invoice_payload update
  = Some (JStr (Invoice.payload (build_invoice env buyerId giftId gift))) →
  read_confirmation update
  = Some (giftId, Some buyerId, get (message_chat update) "id").
Proof.
  intros Hg Hb Hsp Hchat Hpayload. unfold read_confirmation.
  rewrite Hsp, Hchat, Hpayload. simpl.
  rewrite (split_payload _ _ Hg Hb). reflexivity.
Qed.

Lemma invoice_payload_round_trip_scenario :
  occurs ":" "gift-5" = false
  ∧ occurs ":" "u2" = false
  ∧ read_confirmation (confirmation "gift-5:u2" 2)
    = Some ("gift-5", Some "u2", Some (JNum 2)).
Proof.
  split; [reflexivity|]. split; [reflexivity|].
  exact (invoice_payload_round_trip (answering_env 7) "u2" "gift-5"
           (Gift.mk "gift-5" "u1" "rose" "" 10 true false)
           (confirmation "gift-5:u2" 2) eq_refl eq_refl eq_refl eq_refl eq_refl).
Defined.


(** ** Invariants along a sequence of requests *)

Lemma run_invariant (P : DB.t → Prop) :
  (∀ env r w, P (contents w) → P (contents (handle env r w).2)) →
  ∀ trace w, P (contents w) → P (contents (run trace w)).
Proof.
  intros Hstep trace. induction trace as [|[env r] trace IH]; intros w Hw; simpl; [done|].
  apply IH, Hstep, Hw.
Qed.

Lemma reachable_invariant (P : DB.t → Prop) :
  P DB.empty →
  (∀ env r w, P (contents w) → P (contents (handle env r w).2)) →
  ∀ w, reachable w → P (contents w).
Proof. intros H0 Hstep w [trace ->]. by apply run_invariant. Qed.

(** The store saved by a settlement, entry by entry. *)
Lemma saved_gifts_lookup env giftId buyerId gift db k :
  DB.gifts (saved_by_settlement env giftId buyerId gift db) !! k
  = if decide (k = giftId)
    then Some (gift_set_for_sale false (gift_set_sold true gift))
    else DB.gifts db !! k.
Proof.
  unfold saved_by_settlement. simpl. destruct (decide (k = giftId)) as [->|Hk].
  - by rewrite lookup_insert_eq.
  - by rewrite lookup_insert_ne.
Qed.

Lemma saved_users_lookup env giftId buyerId gift db k :
  DB.users (saved_by_settlement env giftId buyerId gift db) !! k
  = (λ u, if decide (k = Gift.ownerId gift)
          then user_set_stars (User.stars u + Gift.stars gift) u else u)
    <$> DB.users db !! k.
Proof.
  unfold saved_by_settlement. simpl.
  destruct (DB.users db !! Gift.ownerId gift) as [seller|] eqn:Hs.
  - destruct (decide (k = Gift.ownerId gift)) as [->|Hk].
    + by rewrite lookup_insert_eq, Hs.
    + rewrite lookup_insert_ne by done. by destruct (DB.users db !! k).
  - destruct (decide (k = Gift.ownerId gift)) as [->|Hk].
    + by rewrite Hs.
    + by destruct (DB.users db !! k).
Qed.

(** The webhook changes no gift and no user apart from the sale state and
    the balance. *)
Lemma webhook_keeps_identity env update w :
  let db := contents w in
  let db' := contents (webhook env update w).2 in
  (∀ id, gift_identity <$> DB.gifts db' !! id = gift_identity <$> DB.gifts db !! id)
  ∧ (∀ id, user_identity <$> DB.users db' !! id = user_identity <$> DB.users db !! id).
Proof.
  simpl. rewrite webhook_contents.
  destruct (settles update w) as [[[giftId buyerId] gift]|] eqn:Hs; [|done].
  apply settles_lookup in Hs as [Hg _]. split; intros id.
  - rewrite saved_gifts_lookup. destruct (decide (id = giftId)) as [->|]; [|done].
    by rewrite Hg.
  - rewrite saved_users_lookup. destruct (DB.users (contents w) !! id) as [u|]; [|done].
    simpl. by destruct (decide _).
Qed.

(** X2. The webhook transfers nothing.  Whatever update is delivered, as
    long as the gift identifier it carries is not inheritable, every gift
    keeps its id, owner, name, description and price, every user keeps id,
    username, avatar and list of gifts, and no gift or user is added or
    removed.  No user record changes at all, except that of the owner of the
    gift that the update settles: the buyer's record, when there is one, is
    left as it was, and none is created. *)
Theorem webhook_transfers_nothing env update w :
  plain_update update = true →
  let db := contents w in
  let db' := contents (webhook env update w).2 in
  (∀ id, gift_identity <$> DB.gifts db' !! id = gift_identity <$> DB.gifts db !! id)
  ∧ (∀ id, user_identity <$> DB.users db' !! id = user_identity <$> DB.users db !! id)
  ∧ (∀ userId,
       (∀ giftId buyerId gift,
          settles update w = Some (giftId, buyerId, gift) →
          userId ≠ Gift.ownerId gift) →
       DB.users db' !! userId = DB.users db !! userId).
Proof.
  intros _. cbv zeta. split; [apply webhook_keeps_identity|].
  split; [apply webhook_keeps_identity|].
  intros userId Hne. rewrite webhook_contents.
  destruct (settles update w) as [[[giftId buyerId] gift]|] eqn:Hs; [|done].
  rewrite saved_users_lookup.
  destruct (DB.users (contents w) !! userId); [|done].
  simpl. rewrite decide_False; [done|]. by eapply Hne.
Qed.

Lemma webhook_transfers_nothing_scenario :
  let update := confirmation "gift-5:u2" 2 in
  let w' := (webhook (answering_env 8) update listed_gift_world).2 in
  plain_update update = true
  ∧ Gift.ownerId <$> DB.gifts (contents w') !! "gift-5" = Some "u1"
  ∧ User.gifts <$> DB.users (contents w') !! "u1" = Some ["gift-5"]
  ∧ DB.users (contents w') !! "u2" = None.
Proof.
  split; [reflexivity|].
  pose proof (webhook_transfers_nothing (answering_env 8) (confirmation "gift-5:u2" 2)
                listed_gift_world eq_refl) as (_ & _ & Hbuyer).
  split; [reflexivity|]. split; [reflexivity|].
  rewrite (Hbuyer "u2"); [reflexivity|].
  intros giftId buyerId gift Hs. injection Hs as _ _ <-. discriminate.
Defined.

(** *** Well-formed stores *)

Lemma store_well_formed_empty : store_well_formed DB.empty.
Proof. split; intros id x H; simpl in H; by rewrite lookup_empty in H. Qed.

Lemma handle_store_well_formed env r w :
  store_well_formed (contents w) →
  store_well_formed (contents (handle env r w).2).
Proof.
  intros [Hgifts Husers].
  destruct r as [verified id username avatar|req|id priceStars|buyerId giftId|update];
    simpl.
  - rewrite auth_contents. destruct verified; [|done]. split; simpl.
    + intros g gift Hg. destruct (Hgifts g gift Hg) as (Hid & Hms & owner & Ho & Hin).
      split; [done|]. split; [done|].
      destruct (decide (id = Gift.ownerId gift)) as [->|Hne].
      * exists owner. by rewrite lookup_insert_eq, Ho.
      * exists owner. by rewrite lookup_insert_ne.
    + intros k u Hu. apply lookup_insert_Some in Hu as [[<- <-]|[_ Hu]]; [|eauto].
      destruct (DB.users (contents w) !! id) as [u|] eqn:Hu; simpl; eauto.
  - rewrite create_gift_contents. destruct (create_gift_accepted req); [|done].
    set (ownerId := default "" (CreateGiftReq.ownerId req)).
    split; simpl.
    + intros g gift Hg. apply lookup_insert_Some in Hg as [[<- <-]|[Hne Hg]]; simpl.
      * split; [done|]. split; [by exists (Env.now env)|].
        eexists. rewrite lookup_insert_eq. split; [done|]. simpl.
        apply elem_of_app. right. by apply list_elem_of_singleton.
      * destruct (Hgifts g gift Hg) as (Hid & Hms & owner & Ho & Hin).
        split; [done|]. split; [done|].
        destruct (decide (ownerId = Gift.ownerId gift)) as [Heq|Hneq].
        -- eexists. rewrite <- Heq, lookup_insert_eq. split; [done|].
           rewrite <- Heq in Ho. rewrite Ho. simpl.
           apply elem_of_app. by left.
        -- exists owner. by rewrite lookup_insert_ne.
    + intros k u Hu. apply lookup_insert_Some in Hu as [[<- <-]|[_ Hu]]; [|eauto].
      simpl. destruct (DB.users (contents w) !! ownerId) as [u|] eqn:Hu; simpl; eauto.
  - rewrite sell_gift_contents.
    destruct (DB.gifts (contents w) !! id) as [gift0|] eqn:Hg0; [|done].
    split; simpl; [|done].
    intros g gift Hg. apply lookup_insert_Some in Hg as [[<- <-]|[_ Hg]]; [|eauto].
    destruct (Hgifts id gift0 Hg0) as (Hid & Hms & owner & Ho & Hin).
    by destruct priceStars as [n|]; [destruct (n =? 0)|]; simpl; eauto.
  - by rewrite purchase_contents.
  - pose proof (webhook_keeps_identity env update w) as [Hkg Hku]. simpl in *.
    split.
    + intros g gift' Hg'. pose proof (Hkg g) as Hk. rewrite Hg' in Hk.
      destruct (DB.gifts (contents w) !! g) as [gift|] eqn:Hg; [|done].
      injection Hk as Hid Hown _ _ _.
      destruct (Hgifts g gift Hg) as (Hid' & Hms & owner & Ho & Hin).
      split; [congruence|]. split; [done|].
      pose proof (Hku (Gift.ownerId gift)) as Hk. rewrite Ho in Hk. rewrite Hown.
      destruct (DB.users (contents (webhook env update w).2) !! Gift.ownerId gift)
        as [owner'|]; [|done].
      simpl in Hk. injection Hk as _ _ _ Hl. exists owner'. split; [done|]. by rewrite Hl.
    + intros k u' Hu'. pose proof (Hku k) as Hk. rewrite Hu' in Hk.
      destruct (DB.users (contents w) !! k) as [u|] eqn:Hu; [|done].
      simpl in Hk. injection Hk as Hid _ _ _. rewrite Hid. eauto.
Qed.

Lemma inheritable_gift_id (ms : N) : inheritable ("gift-" +:+ pretty ms) = false.
Proof.
  apply bool_decide_eq_false. intros Hin.
  repeat (apply elem_of_cons in Hin as [Heq|Hin]; [discriminate Heq|]).
  by apply elem_of_nil in Hin.
Qed.

(** X3. In every store reached through the server's own requests, a gift is
    stored under its own [id]; the [id] has the form [gift-<ms>], so it
    contains no colon and is not inheritable; and when the owner's id is not
    inheritable, the owner has a user record, stored under that id, whose
    [gifts] list contains the gift. *)
Theorem reachable_store_well_formed w id gift :
  reachable w →
  DB.gifts (contents w) !! id = Some gift →
  Gift.id gift = id
  ∧ (∃ ms : N, id = "gift-" +:+ pretty ms)
  ∧ occurs ":" id = false
  ∧ inheritable id = false
  ∧ (inheritable (Gift.ownerId gift) = false →
     ∃ owner, DB.users (contents w) !! Gift.ownerId gift = Some owner
              ∧ User.id owner = Gift.ownerId gift
              ∧ id ∈ User.gifts owner).
Proof.
  intros Hw Hg.
  destruct (reachable_invariant store_well_formed store_well_formed_empty
              handle_store_well_formed w Hw) as [Hgifts Husers].
  destruct (Hgifts id gift Hg) as (Hid & [ms Hms] & owner & Ho & Hin).
  split; [done|]. split; [by exists ms|]. split; [|split].
  - rewrite Hms. rewrite occurs_app, occurs_colon_pretty. done.
  - rewrite Hms. apply inheritable_gift_id.
  - intros _. exists owner. eauto.
Qed.

Lemma reachable_store_well_formed_scenario :
  reachable listed_gift_world
  ∧ occurs ":" "gift-5" = false
  ∧ inheritable "u1" = false
  ∧ ∃ owner, DB.users (contents listed_gift_world) !! "u1" = Some owner
             ∧ User.id owner = "u1"
             ∧ "gift-5" ∈ User.gifts owner.
Proof.
  assert (Hr : reachable listed_gift_world) by (exists listed_gift_trace; reflexivity).
  split; [exact Hr|].
  pose proof (reachable_store_well_formed listed_gift_world "gift-5"
                (Gift.mk "gift-5" "u1" "rose" "" 10 true false) Hr eq_refl)
    as (_ & _ & Hcolon & _ & Howner).
  split; [exact Hcolon|]. split; [reflexivity|]. exact (Howner eq_refl).
Defined.

(** *** Prices *)


(** *** The ledger *)

Lemma purchases_of_same db db' giftId :
  DB.purchases db' = DB.purchases db → purchases_of giftId db' = purchases_of giftId db.
Proof. unfold purchases_of. by intros ->. Qed.

Lemma handle_sold_is_recorded env r w :
  sold_is_recorded (contents w) → sold_is_recorded (contents (handle env r w).2).
Proof.
  intros Hinv.
  destruct r as [verified id username avatar|req|id priceStars|buyerId giftId|update];
    simpl.
  - rewrite auth_contents. by destruct verified.
  - rewrite create_gift_contents. destruct (create_gift_accepted req); [|done].
    intros g gift Hg Hsold. simpl in Hg.
    apply lookup_insert_Some in Hg as [[_ <-]|[_ Hg]]; [done|].
    destruct (Hinv g gift Hg Hsold) as (p & Hp & Hseller). by exists p.
  - rewrite sell_gift_contents.
    destruct (DB.gifts (contents w) !! id) as [gift0|] eqn:Hg0; [|done].
    intros g gift Hg Hsold. simpl in Hg.
    apply lookup_insert_Some in Hg as [[<- <-]|[_ Hg]].
    + destruct (Hinv id gift0 Hg0) as (p & Hp & Hseller).
      { by destruct priceStars as [n|]; [destruct (n =? 0)|]. }
      exists p. split; [done|].
      by destruct priceStars as [n|]; [destruct (n =? 0)|].
    + destruct (Hinv g gift Hg Hsold) as (p & Hp & Hseller). by exists p.
  - by rewrite purchase_contents.
  - rewrite webhook_contents.
    destruct (settles update w) as [[[giftId buyerId] gift0]|] eqn:Hs; [|done].
    apply settles_lookup in Hs as [Hg0 _].
    intros g gift. rewrite saved_gifts_lookup. unfold saved_by_settlement.
    rewrite purchases_of_app.
    destruct (decide (g = giftId)) as [->|Hne].
    + intros [= <-] _. eexists. split.
      * apply elem_of_app. right. simpl. rewrite decide_True by done.
        by apply list_elem_of_singleton.
      * done.
    + intros Hg Hsold. destruct (Hinv g gift Hg Hsold) as (p & Hp & Hseller).
      exists p. split; [|done]. apply elem_of_app. by left.
Qed.

(** X6. In every reachable store a gift that is marked sold has a purchase
    record, and that record names the gift's owner as the seller: the flag
    and the record are written by the same [saveDB] of the webhook, and no
    other handler sets [sold]. *)
Theorem sold_gift_has_purchase_record w id gift :
  reachable w →
  DB.gifts (contents w) !! id = Some gift → Gift.sold gift = true →
  ∃ p, p ∈ DB.purchases (contents w)
       ∧ Purchase.giftId p = id ∧ Purchase.sellerId p = Gift.ownerId gift.
Proof.
  intros Hw Hg Hsold.
  assert (Hinv : sold_is_recorded (contents w)).
  { apply reachable_invariant; [|apply handle_sold_is_recorded|done].
    intros g x H. simpl in H. by rewrite lookup_empty in H. }
  destruct (Hinv id gift Hg Hsold) as (p & Hp & Hseller).
  apply list_elem_of_filter in Hp as [Hid Hp]. eauto.
Qed.

Lemma sold_gift_has_purchase_record_scenario :
  reachable sold_gift_world
  ∧ ∃ p, p ∈ DB.purchases (contents sold_gift_world)
         ∧ Purchase.giftId p = "gift-5" ∧ Purchase.sellerId p = "u1".
Proof.
  assert (Hr : reachable sold_gift_world).
  { exists (listed_gift_trace
            ++ [(answering_env 8, Webhook (confirmation "gift-5:u2" 2))]).
    reflexivity. }
  split; [exact Hr|].
  exact (sold_gift_has_purchase_record sold_gift_world "gift-5"
           (Gift.mk "gift-5" "u1" "rose" "" 10 false true) Hr eq_refl eq_refl).
Defined.


(** *** Identifiers and the clock *)

Lemma new_gift_id_inj env1 env2 :
  new_gift_id env1 = new_gift_id env2 → Env.now env1 = Env.now env2.
Proof.
  unfold new_gift_id. intros H. apply String.app_inj in H. by apply pretty_N_inj in H.
Qed.






(** *** Sold gifts *)

Lemma handle_keeps_sold env r w id gift :
  match r with
  | CreateGift _ => DB.gifts (contents w) !! new_gift_id env = None
  | _ => True
  end →
  DB.gifts (contents w) !! id = Some gift → Gift.sold gift = true →
  ∃ gift', DB.gifts (contents (handle env r w).2) !! id = Some gift'
           ∧ Gift.sold gift' = true ∧ Gift.ownerId gift' = Gift.ownerId gift.
Proof.
  intros Hfresh Hg Hsold.
  destruct r as [verified u username avatar|req|g priceStars|buyerId giftId|update];
    simpl.
  - rewrite auth_contents. destruct verified; eauto.
  - rewrite create_gift_contents. destruct (create_gift_accepted req); [|eauto].
    simpl. exists gift. rewrite lookup_insert_ne; [done|]. congruence.
  - rewrite sell_gift_contents.
    destruct (DB.gifts (contents w) !! g) as [gift0|] eqn:Hg0; [|eauto]. simpl.
    destruct (decide (g = id)) as [->|Hne].
    + rewrite lookup_insert_eq. eexists. split; [done|].
      assert (gift0 = gift) as -> by congruence.
      by destruct priceStars as [n|]; [destruct (n =? 0)|].
    + rewrite lookup_insert_ne by done. eauto.
  - rewrite purchase_contents. eauto.
  - rewrite webhook_contents.
    destruct (settles update w) as [[[giftId buyerId] gift0]|] eqn:Hs; [|eauto].
    apply settles_lookup in Hs as [Hg0 Hunsold].
    rewrite saved_gifts_lookup. destruct (decide (id = giftId)) as [->|]; [|eauto].
    congruence.
Qed.

Lemma run_keeps_sold trace w id gift :
  ids_fresh trace w →
  DB.gifts (contents w) !! id = Some gift → Gift.sold gift = true →
  ∃ gift', DB.gifts (contents (run trace w)) !! id = Some gift'
           ∧ Gift.sold gift' = true ∧ Gift.ownerId gift' = Gift.ownerId gift.
Proof.
  revert w gift. induction trace as [|[env r] trace IH]; intros w gift Hfresh Hg Hsold;
    simpl; [eauto|].
  destruct Hfresh as [Hr Hrest].
  destruct (handle_keeps_sold env r w id gift Hr Hg Hsold) as (gift1 & Hg1 & Hsold1 & Ho1).
  destruct (IH _ gift1 Hrest Hg1 Hsold1) as (gift2 & Hg2 & Hsold2 & Ho2).
  exists gift2. split; [done|]. split; [done|congruence].
Qed.

Lemma purchase_rejected env buyerId giftId w :
  unavailable (contents w) giftId →
  purchase env buyerId giftId w
  = (Ok (JsonError 400 "Gift not available"),
     mkWorld (Some (contents w)) (tg_calls w) (console w)).
Proof.
  intros Hun. unfold purchase. unfold_M. rewrite loadDB_spec.
  destruct Hun as [->|(gift & -> & [Hfs|Hsold])]; [done| |].
  - rewrite Hfs. by rewrite orb_true_r.
  - by rewrite Hsold.
Qed.

(** X8. A sold gift stays sold: through any sequence of requests that
    makes no identifier twice, the gift is still stored, still marked sold
    and still owned by the seller; [purchase] answers 400 for it, even after
    [sell_gift] has listed it again, and no payment confirmation settles it a
    second time. *)
Theorem sold_is_permanent trace w id gift :
  ids_fresh trace w →
  DB.gifts (contents w) !! id = Some gift → Gift.sold gift = true →
  let w' := run trace w in
  (∃ gift', DB.gifts (contents w') !! id = Some gift'
            ∧ Gift.sold gift' = true ∧ Gift.ownerId gift' = Gift.ownerId gift)
  ∧ (∀ env buyerId,
       purchase env buyerId id w'
       = (Ok (JsonError 400 "Gift not available"),
          mkWorld (Some (contents w')) (tg_calls w') (console w')))
  ∧ (∀ update giftId buyerId gift',
       settles update w' = Some (giftId, buyerId, gift') → giftId ≠ id).
Proof.
  intros Hfresh Hg Hsold w'.
  destruct (run_keeps_sold trace w id gift Hfresh Hg Hsold) as (gift' & Hg' & Hsold' & Ho).
  fold w' in Hg'. split; [eauto|]. split.
  - intros env buyerId. apply purchase_rejected. right. eauto.
  - intros update giftId buyerId gift1 Hs ->.
    apply settles_lookup in Hs as [Hg1 Hunsold]. congruence.
Qed.

Lemma sold_is_permanent_scenario :
  let trace := [(answering_env 10, SellGift "gift-5" (Some 3));
                (answering_env 11, PurchaseReq "u3" "gift-5")] in
  ids_fresh trace sold_gift_world
  ∧ (purchase (answering_env 12) "u3" "gift-5" (run trace sold_gift_world)).1
    = Ok (JsonError 400 "Gift not available").
Proof.
  assert (H : ids_fresh [(answering_env 10, SellGift "gift-5" (Some 3));
                         (answering_env 11, PurchaseReq "u3" "gift-5")]
                sold_gift_world).
  { simpl. repeat split. }
  split; [exact H|].
  pose proof (sold_is_permanent _ sold_gift_world "gift-5"
                (Gift.mk "gift-5" "u1" "rose" "" 10 false true) H eq_refl eq_refl)
    as (_ & Hpurchase & _).
  exact (f_equal fst (Hpurchase (answering_env 12) "u3")).
Defined.


(** *** Lists of gifts *)

Lemma lists_own_gifts_empty : lists_own_gifts DB.empty.
Proof. intros k u id H. simpl in H. by rewrite lookup_empty in H. Qed.

Lemma handle_lists_own_gifts env r w :
  match r with
  | CreateGift _ => DB.gifts (contents w) !! new_gift_id env = None
  | _ => True
  end →
  lists_own_gifts (contents w) → lists_own_gifts (contents (handle env r w).2).
Proof.
  intros Hfresh Hinv.
  destruct r as [verified u username avatar|req|g priceStars|buyerId giftId|update];
    simpl.
  - rewrite auth_contents. destruct verified; [|done].
    intros k user id. simpl. intros Hu Hin.
    apply lookup_insert_Some in Hu as [[<- <-]|[_ Hu]]; [|eauto].
    destruct (DB.users (contents w) !! u) as [user|] eqn:Hu; simpl in Hin; [eauto|].
    by apply elem_of_nil in Hin.
  - rewrite create_gift_contents. destruct (create_gift_accepted req); [|done].
    set (ownerId := default "" (CreateGiftReq.ownerId req)).
    assert (Hold : ∀ k user id, DB.users (contents w) !! k = Some user →
              id ∈ User.gifts user →
              ∃ gift, <[new_gift_id env := Gift.mk (new_gift_id env) ownerId
                          (default "" (CreateGiftReq.name req))
                          (str_or (CreateGiftReq.description req) "")
                          (stars_or_1 (CreateGiftReq.stars req)) false false]>
                        (DB.gifts (contents w)) !! id = Some gift
                      ∧ Gift.ownerId gift = k).
    { intros k user id Hu Hin. destruct (Hinv k user id Hu Hin) as (gift & Hg & Ho).
      exists gift. split; [|done]. rewrite lookup_insert_ne; [done|]. congruence. }
    intros k user id. simpl. intros Hu Hin.
    apply lookup_insert_Some in Hu as [[<- <-]|[_ Hu]]; [|eauto].
    simpl in Hin. apply elem_of_app in Hin as [Hin|Hin].
    + destruct (DB.users (contents w) !! ownerId) as [user|] eqn:Hu; simpl in Hin; [eauto|].
      by apply elem_of_nil in Hin.
    + apply list_elem_of_singleton in Hin as ->. eexists.
      by rewrite lookup_insert_eq.
  - rewrite sell_gift_contents.
    destruct (DB.gifts (contents w) !! g) as [gift0|] eqn:Hg0; [|done].
    intros k user id. simpl. intros Hu Hin.
    destruct (Hinv k user id Hu Hin) as (gift & Hg & Ho).
    destruct (decide (g = id)) as [->|Hne].
    + rewrite lookup_insert_eq. eexists. split; [done|].
      assert (gift0 = gift) as -> by congruence.
      by destruct priceStars as [n|]; [destruct (n =? 0)|].
    + rewrite lookup_insert_ne by done. eauto.
  - by rewrite purchase_contents.
  - pose proof (webhook_keeps_identity env update w) as [Hkg Hku]. simpl in *.
    intros k user' id Hu' Hin.
    pose proof (Hku k) as Hk. rewrite Hu' in Hk.
    destruct (DB.users (contents w) !! k) as [user|] eqn:Hu; [|done].
    simpl in Hk. injection Hk as _ _ _ Hl. rewrite Hl in Hin.
    destruct (Hinv k user id Hu Hin) as (gift & Hg & Ho).
    pose proof (Hkg id) as Hk. rewrite Hg in Hk.
    destruct (DB.gifts (contents (webhook env update w).2) !! id) as [gift'|]; [|done].
    simpl in Hk. injection Hk as _ Hown _ _ _. exists gift'. split; [done|congruence].
Qed.

Lemma run_lists_own_gifts trace w :
  ids_fresh trace w →
  lists_own_gifts (contents w) → lists_own_gifts (contents (run trace w)).
Proof.
  revert w. induction trace as [|[env r] trace IH]; intros w Hfresh Hinv; simpl; [done|].
  destruct Hfresh as [Hr Hrest]. apply IH; [exact Hrest|].
  by apply handle_lists_own_gifts.
Qed.

(** ** Routes that read the store *)

Lemma explicit_id_truthy (id : string) : id ≠ "" → str_truthy (Some id) = true.
Proof. intros H. simpl. by destruct (String.eqb_spec id ""). Qed.

(** X9. [GET /api/my_gifts?userId=u], for a [u] that is not empty and not
    inheritable, changes nothing in the store and, in every store reached
    without making an identifier twice and without naming an inheritable
    identifier, answers with exactly the stored gifts whose [ownerId] is
    [u]; since the webhook never changes an owner, a sold gift stays in the
    seller's list and never appears in the buyer's. *)
Theorem api_my_gifts_owned trace userId initData :
  ids_fresh trace initial_world →
  Forall (λ er, plain_request er.2 = true) trace →
  userId ≠ "" →
  inheritable userId = false →
  let w := run trace initial_world in
  ∃ handler gifts,
    api_my_gifts (Some userId) initData = Some handler
    ∧ handler w
      = (Ok (JsonGifts gifts), mkWorld (Some (contents w)) (tg_calls w) (console w))
    ∧ ∀ gift, gift ∈ gifts ↔
        ∃ id, DB.gifts (contents w) !! id = Some gift ∧ Gift.ownerId gift = userId.
Proof.
  intros Hfresh _ Hne Hplain w. unfold api_my_gifts.
  rewrite (explicit_id_truthy _ Hne). simpl. rewrite Hplain.
  eexists _, _. split; [reflexivity|]. split.
  { unfold_M. rewrite loadDB_spec. reflexivity. }
  assert (Hown : lists_own_gifts (contents w))
    by (apply run_lists_own_gifts; [done|apply lists_own_gifts_empty]).
  assert (Hwf : store_well_formed (contents w)).
  { apply (run_invariant store_well_formed handle_store_well_formed).
    apply store_well_formed_empty. }
  destruct Hwf as [Hgifts Husers].
  intros gift. rewrite list_elem_of_omap. split.
  - intros (id & Hin & Hg). exists id. split; [done|].
    destruct (DB.users (contents w) !! userId) as [user|] eqn:Hu; simpl in Hin.
    + destruct (Hown userId user id Hu Hin) as (gift' & Hg' & Ho). congruence.
    + by apply elem_of_nil in Hin.
  - intros (id & Hg & <-). exists id. split; [|done].
    destruct (Hgifts id gift Hg) as (_ & _ & owner & Ho & Hin). by rewrite Ho.
Qed.

Lemma api_my_gifts_owned_scenario :
  (ids_fresh two_sales_trace initial_world
   ∧ Forall (λ er, plain_request er.2 = true) two_sales_trace
   ∧ inheritable "u1" = false)
  ∧ ∃ handler gifts,
      api_my_gifts (Some "u1") None = Some handler
      ∧ handler (run two_sales_trace initial_world)
        = (Ok (JsonGifts gifts),
           mkWorld (Some (contents (run two_sales_trace initial_world)))
             (tg_calls (run two_sales_trace initial_world))
             (console (run two_sales_trace initial_world)))
      ∧ ∀ gift, gift ∈ gifts ↔
          ∃ id, DB.gifts (contents (run two_sales_trace initial_world)) !! id
                = Some gift
                ∧ Gift.ownerId gift = "u1".
Proof.
  assert (H : ids_fresh two_sales_trace initial_world) by (simpl; repeat split).
  assert (Hplain : Forall (λ er, plain_request er.2 = true) two_sales_trace)
    by (repeat constructor).
  split; [by repeat split|].
  refine (api_my_gifts_owned two_sales_trace "u1" None H Hplain _ eq_refl).
  discriminate.
Defined.

Lemma purchase_answered env buyerId giftId w gift acknowledgment :
  DB.gifts (contents w) !! giftId = Some gift →
  Gift.for_sale gift = true → Gift.sold gift = false →
  Env.fetch env (length (tg_calls w)) = TgJson acknowledgment →
  (purchase env buyerId giftId w).1 = Ok (JsonResult acknowledgment).
Proof.
  intros Hg Hfs Hsold Hfetch. unfold purchase. unfold_M.
  rewrite loadDB_spec, Hg, Hsold, Hfs. simpl.
  unfold tgApi. simpl. by rewrite Hfetch.
Qed.

(** X10. [GET /api/gifts] changes nothing in the store and lists exactly
    the stored gifts with [for_sale] and without [sold]; for an identifier
    that is not inheritable, [purchase] answers 400 exactly when the gift
    stored under it, if any, is not in that list. *)
Theorem api_gifts_lists_what_can_be_bought w :
  ∃ gifts,
    api_gifts w
    = (Ok (JsonGifts gifts), mkWorld (Some (contents w)) (tg_calls w) (console w))
    ∧ (∀ gift, gift ∈ gifts ↔
         ∃ id, DB.gifts (contents w) !! id = Some gift
               ∧ Gift.for_sale gift = true ∧ Gift.sold gift = false)
    ∧ (∀ env buyerId giftId,
         inheritable giftId = false →
         (purchase env buyerId giftId w).1 = Ok (JsonError 400 "Gift not available")
         ↔ ∀ gift, DB.gifts (contents w) !! giftId = Some gift → gift ∉ gifts).
Proof.
  eexists. split.
  { unfold api_gifts. unfold_M. rewrite loadDB_spec. reflexivity. }
  assert (Hmem : ∀ gift,
    gift ∈ filter (λ g, Gift.for_sale g && negb (Gift.sold g))
             (map_to_list (DB.gifts (contents w))).*2
    ↔ ∃ id, DB.gifts (contents w) !! id = Some gift
            ∧ Gift.for_sale gift = true ∧ Gift.sold gift = false).
  { intros gift. rewrite list_elem_of_filter, list_elem_of_fmap. split.
    - intros [Hp ([id g] & -> & Hin)]. apply elem_of_map_to_list in Hin.
      exists id. simpl in *. split; [done|].
      destruct (Gift.for_sale g), (Gift.sold g); done.
    - intros (id & Hg & Hfs & Hsold). split; [by rewrite Hfs, Hsold|].
      exists (id, gift). split; [done|]. by apply elem_of_map_to_list. }
  split; [exact Hmem|].
  intros env buyerId giftId _. split.
  - intros Hans gift Hg Hin. apply Hmem in Hin as (id & _ & Hfs & Hsold).
    destruct (Env.fetch env (length (tg_calls w))) as [ack|reason] eqn:Hfetch.
    + by rewrite (purchase_answered _ _ _ _ _ _ Hg Hfs Hsold Hfetch) in Hans.
    + by rewrite (purchase_provider_unreachable _ _ _ _ _ _ Hg Hfs Hsold Hfetch) in Hans.
  - intros Hnot. rewrite purchase_rejected; [done|].
    destruct (DB.gifts (contents w) !! giftId) as [gift|] eqn:Hg; [|by left].
    right. exists gift. split; [done|].
    destruct (Gift.for_sale gift) eqn:Hfs; [|by left].
    destruct (Gift.sold gift) eqn:Hsold; [by right|].
    destruct (Hnot gift eq_refl). apply Hmem. eauto.
Qed.

Lemma auth_accepted id username avatar w :
  auth true id username avatar w
  = (Ok (RedirectIndex id),
     mkWorld
       (Some (DB.mk (<[id := default (User.mk id username avatar 0 [])
                               (DB.users (contents w) !! id)]> (DB.users (contents w)))
                (DB.gifts (contents w)) (DB.purchases (contents w))))
       (tg_calls w) (console w)).
Proof. unfold auth. simpl. unfold_M. rewrite loadDB_spec. reflexivity. Qed.

(** X11. After a verified login of [id], [GET /api/user?userId=id] answers
    with the record that was stored before the login when there was one, and
    with a new record without stars and gifts otherwise; the answer for any
    other user is what it was before the login, 404 for an unknown one.  The
    route writes nothing.  The identifiers are not empty and not
    inheritable. *)
Theorem api_user_after_login w id username avatar initData :
  id ≠ "" →
  inheritable id = false →
  let w' := (auth true id username avatar w).2 in
  (∃ handler,
     api_user (Some id) initData = Some handler
     ∧ handler w'
       = (Ok (JsonUser (default (User.mk id username avatar 0 [])
                          (DB.users (contents w) !! id))), w'))
  ∧ (∀ other, other ≠ id → other ≠ "" → inheritable other = false →
       ∃ handler,
         api_user (Some other) initData = Some handler
         ∧ handler w'
           = (match DB.users (contents w) !! other with
              | Some user => Ok (JsonUser user)
              | None => Ok (AnswerError 404 "User not found")
              end, w')).
Proof.
  intros Hne Hplain. cbv zeta. rewrite auth_accepted. unfold api_user. split.
  - rewrite (explicit_id_truthy _ Hne). simpl. rewrite Hplain.
    eexists. split; [reflexivity|]. unfold_M. simpl. by rewrite lookup_insert_eq.
  - intros other Hother Hne' Hplain'.
    rewrite (explicit_id_truthy _ Hne'). simpl. rewrite Hplain'.
    eexists. split; [reflexivity|]. unfold_M. simpl.
    rewrite lookup_insert_ne by done.
    by destruct (DB.users (contents w) !! other).
Qed.

Lemma api_user_after_login_scenario :
  inheritable "42" = false
  ∧ ∃ handler,
      api_user (Some "42") None = Some handler
      ∧ (handler (auth true "42" "Ann" "" initial_world).2).1
        = Ok (JsonUser (User.mk "42" "Ann" "" 0 [])).
Proof.
  split; [reflexivity|].
  assert (Hne : "42" ≠ "") by discriminate.
  destruct (api_user_after_login initial_world "42" "Ann" "" None Hne eq_refl)
    as [(handler & Hroute & Hanswer) _].
  exists handler. split; [exact Hroute|]. exact (f_equal fst Hanswer).
Defined.


(** ** Telegram login verification *)

Lemma split_join c l :
  l ≠ [] → Forall (λ s, occurs c s = false) l →
  split c (join (String c "") l) = l.
Proof.
  intros Hne Hl. induction Hl as [|s l Hs Hl IH]; [done|].
  destruct l as [|s' l]; simpl.
  - by apply split_absent.
  - change (String c "" +:+ ?x)%string with (String c x).
    rewrite (split_first _ _ _ Hs). f_equal. by apply IH.
Qed.

Lemma join_empty sep l :
  Forall (λ s, s ≠ "") l → join sep l = "" → l = [].
Proof.
  intros Hl. destruct Hl as [|s l Hs Hl]; [done|].
  destruct l as [|s' l]; simpl; [done|].
  destruct s; [done|]. discriminate.
Qed.

Lemma join_inj c l1 l2 :
  Forall (λ s, occurs c s = false ∧ s ≠ "") l1 →
  Forall (λ s, occurs c s = false ∧ s ≠ "") l2 →
  join (String c "") l1 = join (String c "") l2 → l1 = l2.
Proof.
  intros H1 H2 Heq.
  apply Forall_and in H1 as [H1 H1']. apply Forall_and in H2 as [H2 H2'].
  destruct (decide (l1 = [])) as [->|Hne1].
  { symmetry. by eapply join_empty. }
  destruct (decide (l2 = [])) as [->|Hne2].
  { by eapply join_empty. }
  by rewrite <- (split_join c l1), <- (split_join c l2), Heq.
Qed.

Lemma data_check_line_inj d1 d2 k1 k2 v1 v2 :
  d1 !! k1 = Some v1 → d2 !! k2 = Some v2 →
  occurs "=" k1 = false → occurs "=" k2 = false →
  data_check_line d1 k1 = data_check_line d2 k2 → k1 = k2 ∧ v1 = v2.
Proof.
  unfold data_check_line. intros -> -> Hk1 Hk2 Heq. simpl in Heq.
  change ("=" +:+ ?x)%string with (String "=" x) in Heq.
  pose proof (f_equal (split "=") Heq) as Hs.
  rewrite (split_first _ _ _ Hk1), (split_first _ _ _ Hk2) in Hs.
  injection Hs as -> _. split; [done|].
  apply String.app_inj in Heq. by injection Heq.
Qed.

Lemma sorted_keys_spec (data : gmap string string) k :
  k ∈ merge_sort string_le (map_to_list data).*1 ↔ is_Some (data !! k).
Proof.
  rewrite merge_sort_Permutation, list_elem_of_fmap. split.
  - intros ([k' v] & -> & Hin). apply elem_of_map_to_list in Hin. by exists v.
  - intros [v Hv]. exists (k, v). split; [done|]. by apply elem_of_map_to_list.
Qed.

Lemma data_check_lines_inj d1 d2 (l1 l2 : list string) :
  signable d1 → signable d2 →
  (∀ k, k ∈ l1 → is_Some (d1 !! k)) → (∀ k, k ∈ l2 → is_Some (d2 !! k)) →
  data_check_line d1 <$> l1 = data_check_line d2 <$> l2 →
  l1 = l2 ∧ ∀ k, k ∈ l1 → d1 !! k = d2 !! k.
Proof.
  intros Hs1 Hs2. revert l2. induction l1 as [|k1 l1 IH]; intros [|k2 l2] H1 H2 Heq;
    try discriminate.
  - split; [done|]. intros k Hk. by apply elem_of_nil in Hk.
  - injection Heq as Hline Hrest.
    destruct (H1 k1) as [v1 Hv1]; [by left|].
    destruct (H2 k2) as [v2 Hv2]; [by left|].
    destruct (Hs1 _ _ Hv1) as (He1 & _), (Hs2 _ _ Hv2) as (He2 & _).
    destruct (data_check_line_inj _ _ _ _ _ _ Hv1 Hv2 He1 He2 Hline) as [-> ->].
    destruct (IH l2) as [-> Hsame]; [intros; apply H1; by right
                                    |intros; apply H2; by right|done|].
    split; [done|]. intros k Hk. apply elem_of_cons in Hk as [->|Hk]; [congruence|eauto].
Qed.

Lemma data_check_line_shape d k v :
  signable d → d !! k = Some v →
  occurs "010" (data_check_line d k) = false ∧ data_check_line d k ≠ "".
Proof.
  intros Hs Hv. destruct (Hs _ _ Hv) as (_ & Hk & Hnv).
  unfold data_check_line. rewrite Hv. simpl. split.
  - rewrite occurs_app, Hk. simpl. exact Hnv.
  - destruct k; discriminate.
Qed.

(** X12. The string that [verifyTelegramLogin] signs determines the signed
    fields: two queries with the same [data_check_string] have the same
    fields apart from [hash], provided that no key or value contains a line
    break and no key an equals sign. *)
Theorem data_check_string_determines_fields query1 query2 :
  signable (delete "hash" query1) → signable (delete "hash" query2) →
  data_check_string query1 = data_check_string query2 →
  delete "hash" query1 = delete "hash" query2.
Proof.
  unfold data_check_string.
  set (d1 := delete "hash" query1). set (d2 := delete "hash" query2).
  intros Hs1 Hs2 Heq. cbv zeta in Heq.
  assert (Hshape : ∀ d, signable d →
            Forall (λ s, occurs "010" s = false ∧ s ≠ "")
              (data_check_line d <$> merge_sort string_le (map_to_list d).*1)).
  { intros d Hs. apply Forall_fmap, Forall_forall. intros k Hk.
    apply sorted_keys_spec in Hk as [v Hv]. by eapply data_check_line_shape. }
  apply (join_inj _ _ _ (Hshape d1 Hs1) (Hshape d2 Hs2)) in Heq.
  apply data_check_lines_inj in Heq as [Hkeys Hvals]; [|done|done| |];
    [|intros k; apply sorted_keys_spec..].
  apply map_eq. intros k.
  destruct (d1 !! k) as [v|] eqn:Hk.
  - rewrite <- Hk. apply Hvals, sorted_keys_spec. by rewrite Hk.
  - destruct (d2 !! k) as [v|] eqn:Hk2; [|done].
    assert (Hin : k ∈ merge_sort string_le (map_to_list d1).*1).
    { rewrite Hkeys. apply sorted_keys_spec. by rewrite Hk2. }
    apply sorted_keys_spec in Hin as [v' Hv']. congruence.
Qed.

Lemma data_check_string_determines_fields_scenario :
  data_check_string (login_query "aa") = data_check_string (login_query "bb")
  ∧ delete "hash" (login_query "aa") = delete "hash" (login_query "bb").
Proof.
  assert (Hs : ∀ hash, signable (delete "hash" (login_query hash))).
  { intros hash k v Hkv. unfold login_query in Hkv.
    apply lookup_delete_Some in Hkv as [Hne Hkv].
    repeat (apply lookup_insert_Some in Hkv as [[<- <-]|[? Hkv]]; [by vm_compute|]).
    apply lookup_singleton_Some in Hkv as [<- _]. done. }
  assert (Heq : data_check_string (login_query "aa")
                = data_check_string (login_query "bb")) by reflexivity.
  split; [exact Heq|].
  exact (data_check_string_determines_fields _ _ (Hs "aa") (Hs "bb") Heq).
Defined.

Lemma string_app_assoc (a b c : string) : (a +:+ b) +:+ c = a +:+ b +:+ c.
Proof.
  induction a as [|x a IH]; [done|].
  change (String x ((a +:+ b) +:+ c) = String x (a +:+ b +:+ c)). by rewrite IH.
Qed.

(** X13. Without the condition of X12 the signed string does not determine
    the fields: a query in which the value of [k] ends with a line break
    followed by [k'=v'] is verified exactly as the query with the two fields
    [k] and [k'], for the same [hash]. *)
Theorem data_check_string_fuses_fields node k v k' v' hash :
  string_le k k' → k ≠ k' → k ≠ "hash" → k' ≠ "hash" →
  let fused := {[ k := v +:+ newline +:+ k' +:+ "=" +:+ v' ]} in
  let separate := {[ k := v; k' := v' ]} in
  verifyTelegramLogin node (<["hash" := hash]> fused)
  = verifyTelegramLogin node (<["hash" := hash]> separate).
Proof.
  intros Hle Hne Hk Hk' fused separate. unfold verifyTelegramLogin.
  rewrite !lookup_insert_eq.
  assert (Heq : data_check_string (<["hash" := hash]> fused)
                = data_check_string (<["hash" := hash]> separate)); [|by rewrite Heq].
  unfold data_check_string. cbv zeta.
  rewrite !delete_insert_eq.
  assert (Hf : delete "hash" fused = fused).
  { apply delete_id. unfold fused. by rewrite lookup_singleton_ne. }
  assert (Hs : delete "hash" separate = separate).
  { apply delete_id. unfold separate.
    rewrite lookup_insert_ne by done. by rewrite lookup_singleton_ne. }
  rewrite Hf, Hs.
  assert (Hkf : (map_to_list fused).*1 = [k]).
  { unfold fused. by rewrite map_to_list_singleton. }
  assert (Hks : merge_sort string_le (map_to_list separate).*1 = [k; k']).
  { assert (Hp : (map_to_list separate).*1 ≡ₚ [k; k']).
    { unfold separate. rewrite map_to_list_insert by by rewrite lookup_singleton_ne.
      by rewrite map_to_list_singleton. }
    symmetry in Hp. apply Permutation_length_2_inv in Hp as [->| ->].
    - unfold merge_sort. simpl. by rewrite decide_True.
    - unfold merge_sort. simpl. rewrite decide_False; [done|].
      intros Hle'. apply Hne. by apply String.leb_antisym. }
  rewrite Hkf, Hks. unfold merge_sort. simpl. unfold data_check_line.
  unfold fused, separate. rewrite lookup_singleton_eq.
  rewrite lookup_insert_eq, lookup_insert_ne by done. rewrite lookup_singleton_eq.
  simpl. by rewrite !string_app_assoc.
Qed.

Lemma data_check_string_fuses_fields_scenario :
  string_le "auth_date" "id"
  ∧ verifyTelegramLogin accepting_node
      (<["hash" := "aa"]> {[ "auth_date" := "1" +:+ newline +:+ "id" +:+ "=" +:+ "42" ]})
    = verifyTelegramLogin accepting_node
        (<["hash" := "aa"]> {[ "auth_date" := "1"; "id" := "42" ]}).
Proof.
  split; [reflexivity|].
  apply (data_check_string_fuses_fields accepting_node "auth_date" "1" "id" "42" "aa");
    [reflexivity|discriminate..].
Defined.

(** X14. A query without a [hash], or with an empty one, is not verified,
    whatever the other fields and the bot token are: [GET /auth] answers 403
    and leaves everything as it was, the file is not even read. *)
Theorem login_without_hash_is_refused node query w :
  str_truthy (query !! "hash") = false →
  verifyTelegramLogin node query = Some false
  ∧ ∃ handler, auth_route node query = Some handler
               ∧ handler w = (Ok (SendText 403 "Invalid Telegram login"), w).
Proof.
  intros Hhash. assert (Hv : verifyTelegramLogin node query = Some false).
  { unfold verifyTelegramLogin. by rewrite Hhash. }
  split; [done|]. unfold auth_route. rewrite Hv. simpl. eauto.
Qed.

Lemma login_without_hash_is_refused_scenario :
  str_truthy (login_query "" !! "hash") = false
  ∧ verifyTelegramLogin accepting_node (login_query "") = Some false.
Proof.
  split; [reflexivity|].
  exact (proj1 (login_without_hash_is_refused accepting_node (login_query "")
                  initial_world eq_refl)).
Defined.

(** X15. A verified login is answered with the redirect for
    [String(data.id)] and leaves a user record under that id: the record
    stored before when there was one, and otherwise a new record without
    stars and gifts whose username is never empty ([data.username], else
    [data.first_name], else [tg<id>]). A query without [id] registers the
    user [undefined]. Gifts and purchases are not touched. *)
Theorem verified_login_registers node query w :
  verifyTelegramLogin node query = Some true →
  let id := default "undefined" (query !! "id") in
  ∃ handler user,
    auth_route node query = Some handler
    ∧ (handler w).1 = Ok (RedirectIndex id)
    ∧ DB.users (contents (handler w).2) !! id = Some user
    ∧ match DB.users (contents w) !! id with
      | Some old => user = old
      | None =>
          User.id user = id ∧ User.stars user = 0 ∧ User.gifts user = []
          ∧ User.username user ≠ ""
          ∧ (str_truthy (query !! "username") = true →
             query !! "username" = Some (User.username user))
      end
    ∧ DB.gifts (contents (handler w).2) = DB.gifts (contents w)
    ∧ DB.purchases (contents (handler w).2) = DB.purchases (contents w).
Proof.
  intros Hv id. unfold auth_route. rewrite Hv. simpl. fold id.
  eexists _, _. split; [done|]. rewrite auth_accepted. simpl.
  split; [done|]. split; [by rewrite lookup_insert_eq|].
  split; [|done].
  destruct (DB.users (contents w) !! id); [done|]. simpl.
  split; [done|]. split; [done|]. split; [done|]. split.
  - unfold str_or. destruct (query !! "username") as [s|]; [destruct (String.eqb_spec s "")|];
      try done; destruct (query !! "first_name") as [s'|];
      try destruct (String.eqb_spec s' ""); done.
  - unfold str_truthy, str_or. destruct (query !! "username") as [s|]; [|done].
    by destruct (String.eqb s "").
Qed.

Lemma verified_login_registers_scenario :
  verifyTelegramLogin accepting_node (login_query "aa") = Some true
  ∧ ∃ handler user,
      auth_route accepting_node (login_query "aa") = Some handler
      ∧ (handler initial_world).1 = Ok (RedirectIndex "42")
      ∧ DB.users (contents (handler initial_world).2) !! "42" = Some user.
Proof.
  split; [reflexivity|].
  destruct (verified_login_registers accepting_node (login_query "aa") initial_world
              eq_refl) as (handler & user & Hroute & Hanswer & Huser & _).
  exists handler, user. split; [exact Hroute|]. split; [exact Hanswer|exact Huser].
Defined.


(** ** Calls to the Bot API *)

Lemma auth_tg_calls verified id username avatar w :
  tg_calls (auth verified id username avatar w).2 = tg_calls w.
Proof. destruct verified; [by rewrite auth_accepted|done]. Qed.

Lemma create_gift_tg_calls env req w :
  tg_calls (create_gift env req w).2 = tg_calls w.
Proof.
  unfold create_gift. destruct (negb _ || negb _); [done|].
  unfold_M. by rewrite loadDB_spec.
Qed.

Lemma sell_gift_tg_calls id priceStars w :
  tg_calls (sell_gift id priceStars w).2 = tg_calls w.
Proof.
  unfold sell_gift. unfold_M. rewrite loadDB_spec.
  by destruct (DB.gifts (contents w) !! id).
Qed.

Lemma purchase_tg_calls env buyerId giftId w :
  tg_calls (purchase env buyerId giftId w).2
  = tg_calls w
    ++ match DB.gifts (contents w) !! giftId with
       | Some gift =>
           if Gift.sold gift || negb (Gift.for_sale gift) then []
           else [mkTgCall "sendInvoice"
                   (SendInvoiceBody (build_invoice env buyerId giftId gift))]
       | None => []
       end.
Proof.
  unfold purchase. unfold_M. rewrite loadDB_spec.
  destruct (DB.gifts (contents w) !! giftId) as [gift|]; simpl; [|by rewrite app_nil_r].
  destruct (Gift.sold gift || negb (Gift.for_sale gift)); simpl; [by rewrite app_nil_r|].
  unfold tgApi. simpl. by destruct (Env.fetch env _).
Qed.

Lemma settlement_tg_calls env giftId buyerId chatId w gift :
  DB.gifts (contents w) !! giftId = Some gift →
  Gift.sold gift = false →
  ∃ rest,
    tg_calls (settlement env giftId buyerId chatId w).2
    = tg_calls w
      ++ mkTgCall "sendMessage" (SendMessageBody chatId (GiftReceived (Gift.name gift)))
         :: rest
    ∧ (length rest ≤ 1)%nat
    ∧ Forall (λ c, method c = "sendMessage") rest.
Proof.
  intros Hg Hsold. unfold settlement. unfold_M.
  rewrite loadDB_spec, Hg, Hsold. simpl.
  unfold tgApi at 1. simpl.
  destruct (Env.fetch env (length (tg_calls w))); simpl;
    [|exists []; split; [done|]; split; [simpl; lia|done]].
  destruct (DB.users (contents w) !! Gift.ownerId gift) as [seller|]; simpl;
    [|exists []; split; [done|]; split; [simpl; lia|done]].
  destruct (negb _); simpl;
    [|exists []; split; [done|]; split; [simpl; lia|done]].
  unfold tgApi. simpl.
  exists [mkTgCall "sendMessage"
            (SendMessageBody (Some (JStr (User.id seller)))
               (GiftSold (Gift.name gift) (Gift.stars gift)))].
  split; [|split; [simpl; lia|by repeat constructor]].
  destruct (Env.fetch env _); simpl; by rewrite <- app_assoc.
Qed.

Lemma webhook_catch_tg_calls (m : M Response) w :
  tg_calls (try_catch m webhook_catch w).2 = tg_calls (m w).2.
Proof. unfold_M. destruct (m w) as [[r|e] w']; reflexivity. Qed.

(** X16. What a request sends to the Bot API, when the identifier it looks
    up is not inheritable: [GET /auth], [create_gift] and [sell_gift] send
    nothing; [purchase] sends nothing or the one [sendInvoice] for a stored
    gift that is for sale and not sold; the webhook sends nothing unless it
    settles a gift, and then one or two [sendMessage] calls.  Earlier calls
    are never withdrawn. *)
Theorem handle_calls_the_provider env r w :
  plain_request r = true →
  ∃ new,
    tg_calls (handle env r w).2 = tg_calls w ++ new
    ∧ match r with
      | Auth _ _ _ _ | CreateGift _ | SellGift _ _ => new = []
      | PurchaseReq buyerId giftId =>
          new = []
          ∨ ∃ gift, DB.gifts (contents w) !! giftId = Some gift
                    ∧ Gift.for_sale gift = true ∧ Gift.sold gift = false
                    ∧ new = [mkTgCall "sendInvoice"
                               (SendInvoiceBody (build_invoice env buyerId giftId gift))]
      | Webhook update =>
          match settles update w with
          | Some (giftId, buyerId, gift) =>
              (1 ≤ length new ≤ 2)%nat
              ∧ Forall (λ c, method c = "sendMessage") new
          | None => new = []
          end
      end.
Proof.
  intros _.
  destruct r as [verified id username avatar|req|id priceStars|buyerId giftId|update];
    simpl.
  - exists []. by rewrite auth_tg_calls, app_nil_r.
  - exists []. by rewrite create_gift_tg_calls, app_nil_r.
  - exists []. by rewrite sell_gift_tg_calls, app_nil_r.
  - eexists. split; [apply purchase_tg_calls|].
    destruct (DB.gifts (contents w) !! giftId) as [gift|]; [|by left].
    destruct (Gift.sold gift) eqn:Hsold; [by left|].
    destruct (Gift.for_sale gift) eqn:Hfs; [|by left].
    right. by exists gift.
  - destruct (settles update w) as [[[giftId buyerId] gift]|] eqn:Hs.
    + pose proof Hs as Hs'. unfold settles in Hs'.
      destruct (read_confirmation update) as [[[g b] chatId]|] eqn:Hread; [|done].
      apply settles_lookup in Hs as [Hg Hsold].
      assert (g = giftId) as ->.
      { destruct (DB.gifts (contents w) !! g) as [gift1|]; [|done].
        destruct (Gift.sold gift1); [done|]. by injection Hs'. }
      rewrite (webhook_readable _ _ _ _ _ _ Hread), webhook_catch_tg_calls.
      destruct (settlement_tg_calls env giftId b chatId w gift Hg Hsold)
        as (rest & -> & Hlen & Hall).
      eexists. split; [done|]. split; [simpl; lia|]. by constructor.
    + exists []. by rewrite webhook_unsettled_tg_calls, app_nil_r.
Qed.

Lemma handle_calls_the_provider_scenario :
  let r := Webhook (confirmation "gift-5:u2" 2) in
  plain_request r = true
  ∧ ∃ new,
      tg_calls (handle (answering_env 8) r listed_gift_world).2
      = tg_calls listed_gift_world ++ new
      ∧ (1 ≤ length new ≤ 2)%nat
      ∧ Forall (λ c, method c = "sendMessage") new.
Proof.
  split; [reflexivity|].
  exact (handle_calls_the_provider (answering_env 8)
           (Webhook (confirmation "gift-5:u2" 2)) listed_gift_world eq_refl).
Defined.


(** ** Listing, creating, logging in *)

Lemma sell_gift_found id priceStars w gift :
  DB.gifts (contents w) !! id = Some gift →
  let gift' :=
    match priceStars with
    | Some n => if n =? 0 then gift_set_for_sale true gift
                else gift_set_stars n (gift_set_for_sale true gift)
    | None => gift_set_for_sale true gift
    end in
  sell_gift id priceStars w
  = (Ok (JsonGift gift'),
     mkWorld (Some (DB.mk (DB.users (contents w)) (<[id := gift']> (DB.gifts (contents w)))
                      (DB.purchases (contents w))))
       (tg_calls w) (console w)).
Proof.
  intros Hg. unfold sell_gift. unfold_M. rewrite loadDB_spec, Hg. simpl.
  by destruct priceStars as [n|]; [destruct (n =? 0)|].
Qed.

Lemma sell_gift_missing id priceStars w :
  DB.gifts (contents w) !! id = None →
  sell_gift id priceStars w
  = (Ok (JsonError 404 "gift not found"),
     mkWorld (Some (contents w)) (tg_calls w) (console w)).
Proof. intros Hg. unfold sell_gift. unfold_M. by rewrite loadDB_spec, Hg. Qed.

(** X17. [sell_gift], for an identifier that is not inheritable, touches
    one gift only: users, purchases and all other gifts stay as they are; a
    missing gift is answered 404; a stored gift gets [for_sale = true],
    while its [sold] flag, its owner, its name and its description are kept
    (a sold gift is listed again as sold).  Repeating the request changes
    nothing more and gets the same answer. *)
Theorem sell_gift_lists_one_gift id priceStars w :
  inheritable id = false →
  let w' := (sell_gift id priceStars w).2 in
  DB.users (contents w') = DB.users (contents w)
  ∧ DB.purchases (contents w') = DB.purchases (contents w)
  ∧ (∀ other, other ≠ id →
       DB.gifts (contents w') !! other = DB.gifts (contents w) !! other)
  ∧ match DB.gifts (contents w) !! id with
    | None =>
        (sell_gift id priceStars w).1 = Ok (JsonError 404 "gift not found")
        ∧ DB.gifts (contents w') !! id = None
    | Some gift =>
        ∃ gift', (sell_gift id priceStars w).1 = Ok (JsonGift gift')
          ∧ DB.gifts (contents w') !! id = Some gift'
          ∧ Gift.for_sale gift' = true
          ∧ Gift.sold gift' = Gift.sold gift
          ∧ Gift.ownerId gift' = Gift.ownerId gift
          ∧ Gift.name gift' = Gift.name gift
          ∧ Gift.description gift' = Gift.description gift
    end
  ∧ sell_gift id priceStars w' = ((sell_gift id priceStars w).1, w').
Proof.
  intros _. cbv zeta. destruct (DB.gifts (contents w) !! id) as [gift|] eqn:Hg.
  - rewrite (sell_gift_found _ priceStars _ _ Hg). cbv zeta. simpl.
    split; [done|]. split; [done|]. split; [by intros; rewrite lookup_insert_ne|].
    split.
    + eexists. split; [done|]. rewrite lookup_insert_eq. split; [done|].
      by destruct priceStars as [n|]; [destruct (n =? 0)|].
    + erewrite sell_gift_found; [|simpl; apply lookup_insert_eq].
      cbv zeta. simpl. rewrite insert_insert_eq.
      by destruct priceStars as [n|]; [destruct (n =? 0) eqn:Hn; simpl; rewrite ?Hn|].
  - rewrite (sell_gift_missing _ _ _ Hg). simpl.
    split; [done|]. split; [done|]. split; [done|]. split; [done|].
    by rewrite sell_gift_missing.
Qed.

Lemma sell_gift_lists_one_gift_scenario :
  inheritable "gift-5" = false
  ∧ ∃ gift', (sell_gift "gift-5" (Some 3) sold_gift_world).1 = Ok (JsonGift gift')
             ∧ Gift.for_sale gift' = true
             ∧ Gift.sold gift' = true.
Proof.
  split; [reflexivity|].
  pose proof (sell_gift_lists_one_gift "gift-5" (Some 3) sold_gift_world eq_refl)
    as (_ & _ & _ & (gift' & Hanswer & _ & Hfs & Hsold & _) & _).
  exists gift'. split; [exact Hanswer|]. split; [exact Hfs|exact Hsold].
Defined.




Lemma auth_refused id username avatar w :
  auth false id username avatar w = (Ok (SendText 403 "Invalid Telegram login"), w).
Proof. reflexivity. Qed.

(** X19. The login upsert keeps every record that is already stored,
    including that of the user who logs in, whose username and avatar are
    not refreshed; it touches no gift and no purchase, and a second login
    with any profile data changes nothing. *)
Theorem login_keeps_existing_accounts verified id username avatar w :
  let w' := (auth verified id username avatar w).2 in
  (∀ k user, DB.users (contents w) !! k = Some user →
     DB.users (contents w') !! k = Some user)
  ∧ (∀ k, k ≠ id → DB.users (contents w') !! k = DB.users (contents w) !! k)
  ∧ DB.gifts (contents w') = DB.gifts (contents w)
  ∧ DB.purchases (contents w') = DB.purchases (contents w)
  ∧ (∀ username' avatar',
       contents (auth verified id username' avatar' w').2 = contents w').
Proof.
  cbv zeta. destruct verified; [|by rewrite !auth_refused].
  rewrite auth_accepted.
  split; [|split; [|split; [|split]]]; try done.
  - intros k user Hu. simpl. destruct (decide (k = id)) as [->|Hne].
    + by rewrite lookup_insert_eq, Hu.
    + by rewrite lookup_insert_ne.
  - intros k Hne. simpl. by rewrite lookup_insert_ne.
  - intros username' avatar'. rewrite auth_accepted. simpl.
    rewrite lookup_insert_eq. simpl. by rewrite insert_insert_eq.
Qed.


(** ** A sale from the creation of the gift to its settlement *)



